(** * Local_Sensor_Tester: BLE packet aggregation and orientation dispatch

    A shallow embedding of [src/webble.ts] (class [WebBLEManager]) and of the
    telemetry part of the application class [AccelerometerApp]
    ([handleSensorData], the mode radio handlers, [normalize180]).

    Numbers.  A JavaScript number is modelled by its value: a rational, or
    one of the three non-finite values; the sign of zero is not modelled.
    Decoding a little-endian float32 is exact, since every finite float32 is
    a rational.  Sums and differences are rounded to binary64 by [round]
    (round to nearest, ties to even, overflow to infinity) in [add] and
    [minus], which is what [normalize180] computes with.  The clock and the
    rate meter are written with [sub], the difference before rounding: what
    is stated about them is stated of the expression the program evaluates,
    and where rounding or overflow matters it is said with [minus].  The two
    agree wherever the difference is a binary64 number ([minus_sub]); on a
    list of pairs [round] is compared with the kernel's binary64 arithmetic
    ([round_agrees_with_kernel]). *)

From Stdlib Require Import ZArith QArith Qround Qminmax Qreduction Qpower Qabs.
From Stdlib Require Floats.
From Stdlib Require Import List Bool Lia Lqa Sorted.
From Stdlib.Strings Require Import Byte.
Import ListNotations.

Local Open Scope Q_scope.

(** ** JavaScript numbers *)

Module Num.

Inductive number : Type :=
| Fin (q : Q)
| NaN
| PosInf
| NegInf.

(** A finite result, in lowest terms. *)
Definition fin (q : Q) : number := Fin (Qred q).

(** [isFinite(x)] *)
Definition isFinite (x : number) : bool :=
  match x with Fin _ => true | _ => false end.

Definition Qltb (a b : Q) : bool := negb (Qle_bool b a).

(** *** Rounding to binary64 *)

(** The floor of the binary logarithm of a positive rational. *)
Definition ilog2 (q : Q) : Z :=
  let e := (Z.log2 (Qnum q) - Z.log2 (Zpos (Qden q)))%Z in
  if Qle_bool (2 ^ e) q then e else (e - 1)%Z.

(** The nearest integer, ties to the even one. *)
Definition rne (x : Q) : Z :=
  let f := Qfloor x in
  match Qcompare (x - inject_Z f) (1 # 2) with
  | Lt => f
  | Gt => (f + 1)%Z
  | Eq => if Z.even f then f else (f + 1)%Z
  end.

(** The exponent of the binade of a positive rational, not below that of
    the subnormal numbers. *)
Definition exponent (q : Q) : Z := Z.max (ilog2 q) (-1022).

(** The nearest multiple of the unit in the last place (53 bits of
    precision), for a rational that is not negative. *)
Definition nearestPos (q : Q) : Q :=
  let u := 2 ^ (exponent q - 52) in
  inject_Z (rne (q / u)) * u.

Definition nearest (q : Q) : Q :=
  if Qltb q 0 then - nearestPos (- q) else nearestPos q.

(** The binary64 number an exact result is rounded to: to nearest, ties to
    even; what reaches [2 ^ 1024] is infinite. *)
Definition round (q : Q) : number :=
  let v := nearest q in
  if Qle_bool (2 ^ 1024) (Qabs v)
  then (if Qltb q 0 then NegInf else PosInf)
  else fin v.

(** [Number.MAX_VALUE] *)
Definition MAX_VALUE : Q := inject_Z ((2 ^ 53 - 1) * 2 ^ 971).

(** [x + y] *)
Definition add (x y : number) : number :=
  match x, y with
  | Fin a, Fin b => round (a + b)
  | NaN, _ | _, NaN => NaN
  | PosInf, NegInf | NegInf, PosInf => NaN
  | PosInf, _ | _, PosInf => PosInf
  | NegInf, _ | _, NegInf => NegInf
  end.

(** [x - y], rounded as the program computes it. *)
Definition minus (x y : number) : number :=
  match x, y with
  | Fin a, Fin b => round (a - b)
  | NaN, _ | _, NaN => NaN
  | PosInf, PosInf | NegInf, NegInf => NaN
  | PosInf, _ | _, NegInf => PosInf
  | NegInf, _ | _, PosInf => NegInf
  end.

(** [x - y] before rounding. *)
Definition sub (x y : number) : number :=
  match x, y with
  | Fin a, Fin b => fin (a - b)
  | NaN, _ | _, NaN => NaN
  | PosInf, PosInf | NegInf, NegInf => NaN
  | PosInf, _ | _, NegInf => PosInf
  | NegInf, _ | _, PosInf => NegInf
  end.

(** [x < y]; every comparison with NaN is false. *)
Definition lt (x y : number) : bool :=
  match x, y with
  | NaN, _ | _, NaN => false
  | Fin a, Fin b => Qltb a b
  | NegInf, NegInf => false
  | NegInf, _ => true
  | _, NegInf => false
  | PosInf, _ => false
  | Fin _, PosInf => true
  end.

(** [Math.max(x, y)] *)
Definition Math_max (x y : number) : number :=
  match x, y with
  | NaN, _ | _, NaN => NaN
  | _, _ => if lt x y then y else x
  end.

(** Rounding towards zero, as in the quotient of [%]. *)
Definition trunc (q : Q) : Z :=
  if Qltb q 0 then Qceiling q else Qfloor q.

(** [x % y]: the remainder has the sign of the dividend.  The remainder of
    two binary64 numbers is a binary64 number, so nothing is rounded. *)
Definition rem (x y : number) : number :=
  match x, y with
  | Fin a, Fin b =>
      if Qeq_bool b 0 then NaN
      else fin (a - b * inject_Z (trunc (a / b)))
  | Fin a, (PosInf | NegInf) => Fin a
  | _, _ => NaN
  end.

(** [x <= y] between numbers other than NaN. *)
Definition atMost (x y : number) : Prop :=
  match x, y with
  | NaN, _ | _, NaN => False
  | NegInf, _ => True
  | _, PosInf => True
  | Fin a, Fin b => a <= b
  | _, _ => False
  end.

End Num.

Import Num.

(** ** [DataView.getFloat32(offset, true)] *)

Module Float32.

Definition DataView : Type := list byte.

Local Open Scope Z_scope.

Definition byteAt (dv : DataView) (i : nat) : Z :=
  Z.of_N (Byte.to_N (nth i dv x00)).

(** The 32-bit word stored little-endian at [off]. *)
Definition word32 (dv : DataView) (off : nat) : Z :=
  byteAt dv off
  + Z.shiftl (byteAt dv (off + 1)) 8
  + Z.shiftl (byteAt dv (off + 2)) 16
  + Z.shiftl (byteAt dv (off + 3)) 24.

(** The value of an IEEE-754 binary32 bit pattern: sign bit 31, biased
    exponent in bits 30..23, fraction in bits 22..0. *)
Definition ofBits (w : Z) : number :=
  let sign := Z.testbit w 31 in
  let e := Z.land (Z.shiftr w 23) 255 in
  let m := Z.land w 8388607 in
  if e =? 255 then
    if m =? 0 then (if sign then NegInf else PosInf) else NaN
  else
    let mant := if e =? 0 then m else 8388608 + m in
    let ex := if e =? 0 then -149 else e - 150 in
    let mag : Q :=
      if 0 <=? ex then inject_Z (mant * 2 ^ ex)
      else Qmake mant (Z.to_pos (2 ^ (- ex))) in
    fin (if sign then Qopp mag else mag).

(** [dv.getFloat32(off, true)]; [None] stands for the [RangeError] raised
    when the four bytes do not lie inside the view. *)
Definition getFloat32 (dv : DataView) (off : nat) : option number :=
  if (length dv <? off + 4)%nat then None
  else Some (ofBits (word32 dv off)).

End Float32.

Import Float32.

(** ** [sensor-types.ts] *)

Module SensorTypes.

Record Vec3 : Type := { x : number; y : number; z : number }.

Record Euler : Type := { roll : number; pitch : number; yaw : number }.

End SensorTypes.

Import SensorTypes.

(** ** [webble.ts]: class [WebBLEManager] *)

Module WebBLE.

(** The object literal built by the queued callback of
    [scheduleEmitIfReady].  The non-null assertions ([!]) are erased at run
    time, so a field holds whatever its slot holds, [null] included. *)
Record Packet : Type := {
  accel : option Vec3;
  gyro : option Vec3;
  mag : option Vec3;
  gyroInt : option Euler;
  fusion : option Euler;
  fusionMag : option Euler;
  temperature : option number;
  t : number
}.

(** What [emit] hands to the registered listeners. *)
Inductive event : Type :=
| Connected
| Disconnected
| Data (p : Packet)
| Error.

(** The fields of a manager; a GATT handle is [true] when it is not
    [null]. *)
Record WebBLEManager : Type := {
  device : bool;
  server : bool;
  packetChar : bool;
  controlChar : bool;
  latestAccel : option Vec3;
  latestGyro : option Vec3;
  latestMag : option Vec3;
  latestGyroInt : option Euler;
  latestFusion : option Euler;
  latestFusionMag : option Euler;
  latestTemp : option number;
  emitScheduled : bool;
  latestTimeSec : option number
}.

(** The only callback ever given to [queueMicrotask]. *)
Inductive microtask : Type := EmitPacket.

(** The manager together with the microtask queue it has filled and the
    events it has emitted, oldest first. *)
Record Runtime : Type := {
  this : WebBLEManager;
  microtasks : list microtask;
  emitted : list event
}.

Inductive completion : Type :=
| Normal
| RangeError.

(** [new WebBLEManager()] *)
Definition fresh : Runtime :=
  {| this := {| device := false; server := false; packetChar := false;
                controlChar := false;
                latestAccel := None; latestGyro := None; latestMag := None;
                latestGyroInt := None; latestFusion := None;
                latestFusionMag := None; latestTemp := None;
                emitScheduled := false; latestTimeSec := None |};
     microtasks := [];
     emitted := [] |}.

Definition withThis (r : Runtime) (m : WebBLEManager) : Runtime :=
  {| this := m; microtasks := microtasks r; emitted := emitted r |}.

Definition setEmitScheduled (b : bool) (m : WebBLEManager) : WebBLEManager :=
  {| device := device m; server := server m; packetChar := packetChar m;
     controlChar := controlChar m;
     latestAccel := latestAccel m; latestGyro := latestGyro m;
     latestMag := latestMag m; latestGyroInt := latestGyroInt m;
     latestFusion := latestFusion m; latestFusionMag := latestFusionMag m;
     latestTemp := latestTemp m;
     emitScheduled := b; latestTimeSec := latestTimeSec m |}.

(** [this.emit(event, ...)] *)
Definition emit (e : event) (r : Runtime) : Runtime :=
  {| this := this r; microtasks := microtasks r;
     emitted := emitted r ++ [e] |}.

Definition queueMicrotask (k : microtask) (r : Runtime) : Runtime :=
  {| this := this r; microtasks := microtasks r ++ [k];
     emitted := emitted r |}.

(** The callback queued by [scheduleEmitIfReady]. *)
Definition emitPacket (r : Runtime) : Runtime :=
  let m := setEmitScheduled false (this r) in
  let packet :=
    {| accel := latestAccel m; gyro := latestGyro m; mag := latestMag m;
       gyroInt := latestGyroInt m; fusion := latestFusion m;
       fusionMag := latestFusionMag m; temperature := latestTemp m;
       t := match latestTimeSec m with Some v => v | None => Fin 0 end |} in
  emit (Data packet) (withThis r m).

Definition isSet {A : Type} (o : option A) : bool :=
  match o with Some _ => true | None => false end.

(** [scheduleEmitIfReady()] *)
Definition scheduleEmitIfReady (r : Runtime) : Runtime :=
  let m := this r in
  if emitScheduled m then r
  else if negb (isSet (latestAccel m)) || negb (isSet (latestGyro m))
          || negb (isSet (latestMag m)) || negb (isSet (latestTemp m))
  then r
  else queueMicrotask EmitPacket (withThis r (setEmitScheduled true m)).

(** The loop [for (i = 0; i < 20; i++) values[i] = dv.getFloat32(i * 4, true)],
    run for [n] more indices from [i]; [None] when a read raises. *)
Fixpoint readValues (dv : DataView) (n i : nat) : option (list number) :=
  match n with
  | O => Some []
  | S n' =>
      match getFloat32 dv (i * 4) with
      | None => None
      | Some v =>
          match readValues dv n' (S i) with
          | None => None
          | Some vs => Some (v :: vs)
          end
      end
  end.

(** [values[i]] of the zero-filled [Float32Array(20)]. *)
Definition at_ (values : list number) (i : nat) : number :=
  nth i values (Fin 0).

(** The listener of the packet characteristic (lines 149-165), given the
    [DataView] of the notification. *)
Definition onPacket (dv : DataView) (r : Runtime) : completion * Runtime :=
  match readValues dv 20 0 with
  | None => (RangeError, r)
  | Some values =>
      let m := this r in
      let m' :=
        {| device := device m; server := server m;
           packetChar := packetChar m; controlChar := controlChar m;
           latestAccel :=
             Some {| x := at_ values 0; y := at_ values 1; z := at_ values 2 |};
           latestGyro :=
             Some {| x := at_ values 3; y := at_ values 4; z := at_ values 5 |};
           latestMag :=
             Some {| x := at_ values 6; y := at_ values 7; z := at_ values 8 |};
           latestGyroInt :=
             Some {| roll := at_ values 9; pitch := at_ values 10;
                     yaw := at_ values 11 |};
           latestFusion :=
             Some {| roll := at_ values 12; pitch := at_ values 13;
                     yaw := at_ values 14 |};
           latestFusionMag :=
             Some {| roll := at_ values 15; pitch := at_ values 16;
                     yaw := at_ values 17 |};
           latestTemp := Some (at_ values 18);
           emitScheduled := emitScheduled m;
           latestTimeSec :=
             if isFinite (at_ values 19) then Some (at_ values 19) else None |} in
      (Normal, scheduleEmitIfReady (withThis r m'))
  end.

(** [handleDisconnect()] *)
Definition handleDisconnect (r : Runtime) : Runtime :=
  let m := this r in
  let m' :=
    {| device := device m; server := false; packetChar := false;
       controlChar := false;
       latestAccel := None; latestGyro := None; latestMag := None;
       latestGyroInt := None; latestFusion := None; latestFusionMag := None;
       latestTemp := None;
       emitScheduled := false;
       latestTimeSec := latestTimeSec m |} in
  emit Disconnected (withThis r m').

(** The successful path of [connect()]: a device was chosen, the GATT server
    and the packet characteristic were obtained; [control] tells whether the
    control characteristic exists.  The awaits in between are not modelled. *)
Definition connectOk (control : bool) (r : Runtime) : Runtime :=
  let m := this r in
  if server m then r
  else
    let m' :=
      {| device := true; server := true; packetChar := true;
         controlChar := control;
         latestAccel := latestAccel m; latestGyro := latestGyro m;
         latestMag := latestMag m; latestGyroInt := latestGyroInt m;
         latestFusion := latestFusion m;
         latestFusionMag := latestFusionMag m; latestTemp := latestTemp m;
         emitScheduled := emitScheduled m;
         latestTimeSec := latestTimeSec m |} in
    emit Connected (withThis r m').

(** *** The event loop

    A scheduling turn is one task, here a batch of listener calls, followed
    by the microtask checkpoint that empties the queue. *)

Definition runMicrotask (k : microtask) (r : Runtime) : Runtime :=
  match k with EmitPacket => emitPacket r end.

Fixpoint runAll (q : list microtask) (r : Runtime) : Runtime :=
  match q with
  | [] => r
  | k :: q' => runAll q' (runMicrotask k r)
  end.

Definition drain (r : Runtime) : Runtime :=
  runAll (microtasks r)
         {| this := this r; microtasks := []; emitted := emitted r |}.

(** A notification delivered to the listener.  An exception leaves the
    listener; the dispatcher reports it and carries on. *)
Definition notify (r : Runtime) (dv : DataView) : Runtime :=
  snd (onPacket dv r).

Inductive turn : Type :=
| Updates (dvs : list DataView)
| GattDisconnected
| ConnectOk (control : bool).

Definition runTurn (r : Runtime) (tn : turn) : Runtime :=
  drain match tn with
        | Updates dvs => fold_left notify dvs r
        | GattDisconnected => handleDisconnect r
        | ConnectOk control => connectOk control r
        end.

Definition run (ts : list turn) (r : Runtime) : Runtime :=
  fold_left runTurn ts r.

(** The samples among a list of events. *)
Fixpoint samples (es : list event) : list Packet :=
  match es with
  | [] => []
  | Data p :: es' => p :: samples es'
  | _ :: es' => samples es'
  end.

End WebBLE.

(** ** The application class [AccelerometerApp] *)

Module App.

(** [SensorData] as the handlers use it: [gyroInt], [fusion] and [fusionMag]
    are tested for presence before use. *)
Record SensorData : Type := {
  accel : Vec3;
  gyro : Vec3;
  mag : Vec3;
  gyroInt : option Euler;
  fusion : option Euler;
  fusionMag : option Euler;
  temperature : number;
  t : number
}.

(** The field [mode]: ['accel' | 'gyro' | 'fusion' | 'fusionMag']. *)
Inductive Mode : Type :=
| ModeAccel
| ModeGyro
| ModeFusion
| ModeFusionMag.

Inductive graph : Type :=
| accelGraph
| gyroGraph
| magGraph
| fusionGraph
| fusionMagGraph
| gyroIntGraph
| tempGraph.

(** Calls on the collaborators, in program order.  The numeric read-outs
    written with [toFixed] are left out. *)
Inductive effect : Type :=
| SetMsgRate (n : nat)
| UpdateOrientationFromAccel (a : Vec3) (dt : number)
| UpdateOrientationFromEuler (e : option Euler) (dt : number)
| ResetModelOrientation
| HandleSmoothingChange
| AddPoint (g : graph) (p : Vec3)
| Clear (g : graph).

Record AccelerometerApp : Type := {
  pcbModel : bool;
  mode : Mode;
  prevDeviceTimeSec : option number;
  msgTimestamps : list number;
  smoothingDisabled : bool
}.

(** The state once [init()] has loaded the model. *)
Definition initial : AccelerometerApp :=
  {| pcbModel := true; mode := ModeAccel; prevDeviceTimeSec := None;
     msgTimestamps := []; smoothingDisabled := false |}.

(** [normalize180(deg)] *)
Definition normalize180 (deg : number) : number :=
  let x := rem (add deg (Fin 180)) (Fin 360) in
  if lt x (Fin 0) then minus (add x (Fin 360)) (Fin 180)
  else minus x (Fin 180).

Definition normalizeEuler (e : Euler) : Vec3 :=
  {| x := normalize180 (roll e); y := normalize180 (pitch e);
     z := normalize180 (yaw e) |}.

(** [while (ts.length && ts[0] < limit) ts.shift()] *)
Fixpoint evict (limit : number) (ts : list number) : list number :=
  match ts with
  | [] => []
  | h :: tl => if lt h limit then evict limit tl else h :: tl
  end.

(** Lines 409-415: the window after a sample whose time field is [time]. *)
Definition rateWindow (ts : list number) (time : number) : list number :=
  let nowSec := if isFinite time then time else last ts (Fin 0) in
  let oneSecondAgo := sub nowSec (Fin 1) in
  evict oneSecondAgo (ts ++ [nowSec]).

(** Lines 439-441: the new anchor and the computed [dt]. *)
Definition clockTracker (prev : option number) (time : number)
  : option number * number :=
  let prev' := if isFinite time then Some time else None in
  let dt :=
    match prev with
    | Some p =>
        if isFinite time then Math_max (Fin 0) (sub time p) else Fin 0
    | None => Fin 0
    end in
  (prev', dt).

(** Lines 443-455: the call made on the model, if any. *)
Definition dispatch (m : Mode) (data : SensorData) (dt : number)
  : list effect :=
  match m with
  | ModeAccel => [UpdateOrientationFromAccel (accel data) dt]
  | ModeGyro => [UpdateOrientationFromEuler (gyroInt data) dt]
  | ModeFusion =>
      match fusion data with
      | Some f => [UpdateOrientationFromEuler (Some f) dt]
      | None => []
      end
  | ModeFusionMag =>
      match fusionMag data with
      | Some f => [UpdateOrientationFromEuler (Some f) dt]
      | None => []
      end
  end.

Definition plotEuler (g : graph) (o : option Euler) : list effect :=
  match o with
  | Some e => [AddPoint g (normalizeEuler e)]
  | None => []
  end.

(** What a call of [handleSensorData] leaves behind: the new fields, the
    local [dt] when the model block ran, and the calls made. *)
Record Outcome : Type := {
  next : AccelerometerApp;
  dt : option number;
  effects : list effect
}.

(** [handleSensorData(data)] *)
Definition handleSensorData (app : AccelerometerApp) (data : SensorData)
  : Outcome :=
  let stamps := rateWindow (msgTimestamps app) (t data) in
  let clock :=
    if pcbModel app
    then
      let '(prev', d) := clockTracker (prevDeviceTimeSec app) (t data) in
      (prev', Some d, dispatch (mode app) data d)
    else (prevDeviceTimeSec app, None, []) in
  let '(prev', d, calls) := clock in
  {| next := {| pcbModel := pcbModel app; mode := mode app;
                prevDeviceTimeSec := prev';
                msgTimestamps := stamps;
                smoothingDisabled := smoothingDisabled app |};
     dt := d;
     effects :=
       [SetMsgRate (length stamps)]
       ++ calls
       ++ [AddPoint accelGraph (accel data); AddPoint gyroGraph (gyro data);
           AddPoint magGraph (mag data)]
       ++ plotEuler gyroIntGraph (gyroInt data)
       ++ [AddPoint tempGraph
             {| x := temperature data; y := Fin 0; z := Fin 0 |}]
       ++ plotEuler fusionGraph (fusion data)
       ++ plotEuler fusionMagGraph (fusionMag data) |}.

(** The [change] listeners of the four mode radio buttons. *)
Definition onModeAccelChange (checked : bool) (app : AccelerometerApp)
  : AccelerometerApp * list effect :=
  if checked
  then ({| pcbModel := pcbModel app; mode := ModeAccel;
           prevDeviceTimeSec := prevDeviceTimeSec app;
           msgTimestamps := msgTimestamps app;
           smoothingDisabled := false |}, [HandleSmoothingChange])
  else (app, []).

Definition onModeGyroChange (checked : bool) (app : AccelerometerApp)
  : AccelerometerApp * list effect :=
  if checked
  then ({| pcbModel := pcbModel app; mode := ModeGyro;
           prevDeviceTimeSec := None;
           msgTimestamps := msgTimestamps app;
           smoothingDisabled := true |}, [])
  else (app, []).

Definition onModeFusionChange (checked : bool) (app : AccelerometerApp)
  : AccelerometerApp * list effect :=
  if checked
  then ({| pcbModel := pcbModel app; mode := ModeFusion;
           prevDeviceTimeSec := prevDeviceTimeSec app;
           msgTimestamps := msgTimestamps app;
           smoothingDisabled := true |}, [])
  else (app, []).

Definition onModeFusionMagChange (checked : bool) (app : AccelerometerApp)
  : AccelerometerApp * list effect :=
  if checked
  then ({| pcbModel := pcbModel app; mode := ModeFusionMag;
           prevDeviceTimeSec := prevDeviceTimeSec app;
           msgTimestamps := msgTimestamps app;
           smoothingDisabled := true |}, [])
  else (app, []).

(** The [click] listener of the reset button; the [RESET_GYRO] command it
    then sends to the device is not modelled. *)
Definition onResetGyroClick (app : AccelerometerApp)
  : AccelerometerApp * list effect :=
  let app' := {| pcbModel := pcbModel app; mode := mode app;
                 prevDeviceTimeSec := None;
                 msgTimestamps := msgTimestamps app;
                 smoothingDisabled := smoothingDisabled app |} in
  if pcbModel app
  then (app', match mode app with
              | ModeGyro => [ResetModelOrientation]
              | _ => []
              end)
  else (app', []).

Definition clearWindowAndAnchor (app : AccelerometerApp) : AccelerometerApp :=
  {| pcbModel := pcbModel app; mode := mode app;
     prevDeviceTimeSec := None;
     msgTimestamps := [];
     smoothingDisabled := smoothingDisabled app |}.

(** The ['connected'] listeners of both transports. *)
Definition onConnected (app : AccelerometerApp)
  : AccelerometerApp * list effect :=
  (clearWindowAndAnchor app, [SetMsgRate 0]).

(** The ['disconnected'] listeners of both transports. *)
Definition onDisconnected (app : AccelerometerApp)
  : AccelerometerApp * list effect :=
  (clearWindowAndAnchor app,
   [SetMsgRate 0; Clear accelGraph; Clear gyroGraph; Clear magGraph;
    Clear fusionGraph; Clear fusionMagGraph; Clear gyroIntGraph;
    Clear tempGraph]).


End App.

(** ** Angles that [normalize180] handles without rounding *)

Module Angles.

(** [q] is a multiple of [2 ^ - k]: it has at most [k] binary places. *)
Definition places (k : Z) (q : Q) : Prop :=
  exists m : Z, q * 2 ^ k == inject_Z m.

(** At most [k] binary places, and [room] to spare below [2 ^ (53 - k)]:
    the sums of [q] with numbers up to [room] are binary64 numbers.  Every
    integer up to [2 ^ 53 - room] is of this kind ([k = 0]), and so is every
    multiple of [2 ^ -43] up to [1024 - room]. *)
Definition exact (room : Q) (k : Z) (q : Q) : Prop :=
  (0 <= k <= 43)%Z
  /\ places k q
  /\ (Qabs q + room) * 2 ^ k <= inject_Z (2 ^ 53).

(** The binary64 number just below -180. *)
Definition belowMinus180 : Q := - (180 + 2 ^ (-45)).

(** The binary64 number written [0.1]. *)
Definition tenth : Q := inject_Z 3602879701896397 * 2 ^ (-55).

End Angles.

(** ** The kernel's binary64 numbers, to compare [round] with *)

Module Kernel.

Import Floats.

(** The value of a binary64 number of the kernel. *)
Definition valueOf (f : float) : number :=
  match Prim2SF f with
  | S754_zero _ => Fin 0
  | S754_infinity s => if s then NegInf else PosInf
  | S754_nan => Num.NaN
  | S754_finite s m e =>
      fin ((if s then -1 else 1) * inject_Z (Zpos m) * 2 ^ e)
  end.

Definition same (x y : number) : bool :=
  match x, y with
  | Fin a, Fin b => Qeq_bool a b
  | Num.NaN, Num.NaN | PosInf, PosInf | NegInf, NegInf => true
  | _, _ => false
  end.

(** The kernel's sum and difference of two numbers have the values that
    [add] and [minus] give. *)
Definition agree (x y : float) : bool :=
  same (valueOf (x + y)%float) (Num.add (valueOf x) (valueOf y))
  && same (valueOf (x - y)%float) (minus (valueOf x) (valueOf y)).

(** Pairs around the places where rounding shows: ties, the subnormal
    numbers, the overflow threshold, and the sums of [normalize180]. *)
Definition pairs : list (float * float) :=
  [(0x1.999999999999ap-4, 0x1.68p+7); (0x1.999999999999ap-4, 0x1.68p+8);
   (-0x1.6800000000001p+7, 0x1.68p+7); (-0x1p-45, 0x1.68p+8);
   (0x1.68p+8, 0x1.68p+7); (0x1p-60, 0x1p+0); (0x1p+100, 0x1.68p+7);
   (0x1.fffffffffffffp+1023, 0x1.fffffffffffffp+1023);
   (0x1.fffffffffffffp+1023, -0x1.fffffffffffffp+1023);
   (0x1.fffffffffffffp+1023, 0x1.68p+7);
   (0x1.fffffffffffffp+1023, 0x1p+970);
   (0x1.fffffffffffffp+1023, 0x1.fffffffffffffp+969);
   (0x0.0000000000001p-1022, 0x0.0000000000001p-1022);
   (0x0.0000000000001p-1022, 0x1p+0);
   (0x1p-1022, 0x0.0000000000001p-1022); (0x1p-1022, 0x0.8p-1022);
   (0x1p+0, 0x1p-53); (0x1p+0, 0x1.8p-53); (0x1p+0, 0x1p-52);
   (0x1.0000000000001p+0, 0x1p-53); (-0x1p+0, 0x1p-53);
   (-0x1.0000000000001p+0, -0x1p-53);
   (0x1.fffffffffffffp-1, 0x1p-54); (0x1.fffffffffffffp-1, 0x1p-53);
   (0x1.8p+1, 0x1.8p+1); (0x1.3333333333333p-2, 0x1.3333333333333p-1);
   (0x1.e240000000000p+16, 0x1.0624dd2f1a9fcp-10);
   (0x1.4p+3, 0x1.3p+3); (-0x1.dcp+8, 0x1.68p+7)]%float.

End Kernel.

(** ** The normalizer as the specification words it *)

Module Reference.

(** A modulo whose remainder is never negative (for a positive modulus). *)
Definition floorMod (a m : Q) : Q := a - m * inject_Z (Qfloor (a / m)).

(** [normalize(d) = ((d + 180) mod 360 + 360) mod 360 - 180] *)
Definition normalize (d : Q) : Q :=
  floorMod (floorMod (d + 180) 360 + 360) 360 - 180.

End Reference.

(** ** Conditions on the manager used in the statements *)

Module Conditions.

Import WebBLE.

(** The accel, gyro, mag and temperature slots are all set. *)
Definition ready (m : WebBLEManager) : bool :=
  isSet (latestAccel m) && isSet (latestGyro m) && isSet (latestMag m)
  && isSet (latestTemp m).

(** A sample whose four mandatory fields are present. *)
Definition complete (p : Packet) : bool :=
  isSet (accel p) && isSet (gyro p) && isSet (mag p)
  && isSet (temperature p).

(** Between two turns: nothing queued, nothing scheduled. *)
Definition quiescent (r : Runtime) : Prop :=
  microtasks r = [] /\ emitScheduled (this r) = false.

(** Inside a turn, once a packet was accepted: one callback queued, the
    flag up, the mandatory slots set. *)
Definition pending (r : Runtime) : Prop :=
  microtasks r = [EmitPacket] /\ emitScheduled (this r) = true
  /\ ready (this r) = true.

(** The cached device time is [null] or finite. *)
Definition timeSlotFinite (m : WebBLEManager) : Prop :=
  match latestTimeSec m with
  | Some v => isFinite v = true
  | None => True
  end.

(** A buffer the listener decodes. *)
Definition accepted (dv : DataView) : bool := (80 <=? length dv)%nat.

(** The eight cached slots. *)
Definition slots (m : WebBLEManager) :=
  (latestAccel m, latestGyro m, latestMag m, latestGyroInt m,
   latestFusion m, latestFusionMag m, latestTemp m, latestTimeSec m).

Definition sampleOk (p : Packet) : Prop :=
  complete p = true /\ isFinite (t p) = true.

(** What holds between any two turns. *)
Definition settled (r : Runtime) : Prop :=
  quiescent r /\ timeSlotFinite (this r)
  /\ Forall sampleOk (samples (emitted r)).

End Conditions.

(** ** The rate meter as the specification words it *)

Module ReferenceRate.

(** Append [time], then evict from the head while the head is less than
    [time - 1.0]. *)
Definition step (ts : list number) (time : number) : list number :=
  App.evict (sub time (Fin 1)) (ts ++ [time]).

Fixpoint steps (ts : list number) (times : list number) : list number :=
  match times with
  | [] => ts
  | time :: times' => steps (step ts time) times'
  end.

End ReferenceRate.

(** ** Sample inputs *)

Module Fixtures.

Definition zero3 : Vec3 := {| x := Fin 0; y := Fin 0; z := Fin 0 |}.

(** A sample at rest whose device time is [time]. *)
Definition sampleAt (time : number) : App.SensorData :=
  {| App.accel := zero3; App.gyro := zero3; App.mag := zero3;
     App.gyroInt := None; App.fusion := None; App.fusionMag := None;
     App.temperature := Fin 25; App.t := time |}.

(** The application after one sample at device time [a]: the anchor is [a]
    and the window holds [a]. *)
Definition anchored (a : number) : App.AccelerometerApp :=
  {| App.pcbModel := true; App.mode := App.ModeAccel;
     App.prevDeviceTimeSec := Some a; App.msgTimestamps := [a];
     App.smoothingDisabled := false |}.

(** A notification buffer: nineteen zero floats, then [time], then
    [extra] more zero bytes. *)
Definition buffer (time : list byte) (extra : nat) : DataView :=
  repeat x00 76 ++ time ++ repeat x00 extra.

(** 1.5 and NaN as little-endian float32. *)
Definition f32_1_5 : list byte := [x00; x00; xc0; x3f].
Definition f32_nan : list byte := [x00; x00; xc0; x7f].

End Fixtures.

(** ** [webble.ts]: the listener registry ([on], [emit]) *)

Module EventListeners.

(** The keys of [WebBLEEvents]. *)
Inductive kind : Type :=
| connected
| disconnected
| data
| error.

Definition kind_eqb (a b : kind) : bool :=
  match a, b with
  | connected, connected | disconnected, disconnected
  | data, data | error, error => true
  | _, _ => false
  end.

(** A registered function, known by a number; calling it does not register
    anything. *)
Definition callback : Type := nat.

(** The field [eventListeners]; [None] is a key that was never set. *)
Definition registry : Type := kind -> option (list callback).

Definition empty : registry := fun _ => None.

(** [on(event, callback)] *)
Definition on (event : kind) (cb : callback) (reg : registry) : registry :=
  let reg1 : registry :=
    match reg event with
    | None => fun k => if kind_eqb k event then Some [] else reg k
    | Some _ => reg
    end in
  fun k =>
    if kind_eqb k event
    then match reg1 event with
         | Some l => Some (l ++ [cb])
         | None => None
         end
    else reg1 k.

(** [emit(event, ...args)]: the callbacks called, in the order of the calls. *)
Definition emit (event : kind) (reg : registry) : list callback :=
  match reg event with
  | None => []
  | Some listeners => listeners
  end.

(** A sequence of [on] calls, oldest first. *)
Definition register (calls : list (kind * callback)) (reg : registry)
  : registry :=
  fold_left (fun g c => on (fst c) (snd c) g) calls reg.

End EventListeners.

(** ** [webble.ts]: [sendCommand] *)

Module Commands.

Import WebBLE.

(** What the control characteristic offers: for each of the two write
    methods, whether it exists and, if so, whether the promise it returns
    resolves ([true]) or rejects ([false]). *)
Record characteristic : Type := {
  writeValueWithoutResponse : option bool;
  writeValue : option bool
}.

(** A call made on the characteristic, with the bytes handed over. *)
Inductive write : Type :=
| WithoutResponse (bytes : list byte)
| WithResponse (bytes : list byte).

(** [new TextEncoder().encode(command + '\n')], the command being given by
    its UTF-8 bytes. *)
Definition encode (command : list byte) : list byte := command ++ [x0a].

(** [sendCommand(command)]: the writes made and the manager afterwards. *)
Definition sendCommand (command : list byte) (ch : characteristic)
           (r : Runtime) : list write * Runtime :=
  if negb (controlChar (this r)) then ([], emit Error r)
  else
    let bytes := encode command in
    match writeValueWithoutResponse ch with
    | Some ok =>
        ([WithoutResponse bytes], if ok then r else emit Error r)
    | None =>
        match writeValue ch with
        | Some ok => ([WithResponse bytes], if ok then r else emit Error r)
        | None => ([], emit Error r)
        end
    end.

End Commands.

(** ** The packet layout, read off the offsets *)

Module Layout.

Import WebBLE.

(** The float at index [i] of a buffer of at least 80 bytes. *)
Definition field (dv : DataView) (i : nat) : number :=
  match getFloat32 dv (i * 4) with
  | Some v => v
  | None => Fin 0
  end.

Definition vec (dv : DataView) (i : nat) : Vec3 :=
  {| x := field dv i; y := field dv (i + 1); z := field dv (i + 2) |}.

Definition angles (dv : DataView) (i : nat) : Euler :=
  {| roll := field dv i; pitch := field dv (i + 1); yaw := field dv (i + 2) |}.

(** The sample that a buffer stands for: accel at 0-2, gyro at 3-5, mag at
    6-8, gyroInt at 9-11, fusion at 12-14, fusionMag at 15-17, temperature at
    18, time at 19 (0 when it is not finite). *)
Definition sample (dv : DataView) : Packet :=
  {| accel := Some (vec dv 0); gyro := Some (vec dv 3); mag := Some (vec dv 6);
     gyroInt := Some (angles dv 9); fusion := Some (angles dv 12);
     fusionMag := Some (angles dv 15);
     temperature := Some (field dv 18);
     t := if isFinite (field dv 19) then field dv 19 else Fin 0 |}.

End Layout.

(** ** The wiring of [setupBLEIfAvailable] and the inputs of the application *)

Module Wiring.

(** The received object seen as [SensorData], when its mandatory fields are
    there. *)
Definition toSensorData (p : WebBLE.Packet) : option App.SensorData :=
  match WebBLE.accel p, WebBLE.gyro p, WebBLE.mag p, WebBLE.temperature p with
  | Some a, Some g, Some m, Some temp =>
      Some {| App.accel := a; App.gyro := g; App.mag := m;
              App.gyroInt := WebBLE.gyroInt p; App.fusion := WebBLE.fusion p;
              App.fusionMag := WebBLE.fusionMag p;
              App.temperature := temp; App.t := WebBLE.t p |}
  | _, _, _, _ => None
  end.

(** What a listener of the manager did. *)
Inductive reaction : Type :=
| Handled (o : App.Outcome)
| Raised (rate : nat)
| Told (effects : list App.effect).

(** The four listeners registered on the manager.  On a sample with a
    mandatory field missing, [handleSensorData] updates the rate (lines
    409-418) and then raises a TypeError at the first read-out of the missing
    field (lines 421-434), before the model block. *)
Definition react (app : App.AccelerometerApp) (e : WebBLE.event)
  : App.AccelerometerApp * reaction :=
  match e with
  | WebBLE.Connected =>
      (fst (App.onConnected app), Told (snd (App.onConnected app)))
  | WebBLE.Disconnected =>
      (fst (App.onDisconnected app), Told (snd (App.onDisconnected app)))
  | WebBLE.Data p =>
      match toSensorData p with
      | Some d =>
          (App.next (App.handleSensorData app d),
           Handled (App.handleSensorData app d))
      | None =>
          let stamps := App.rateWindow (App.msgTimestamps app) (WebBLE.t p) in
          ({| App.pcbModel := App.pcbModel app; App.mode := App.mode app;
              App.prevDeviceTimeSec := App.prevDeviceTimeSec app;
              App.msgTimestamps := stamps;
              App.smoothingDisabled := App.smoothingDisabled app |},
           Raised (length stamps))
      end
  | WebBLE.Error => (app, Told [])
  end.

(** The events of a manager delivered in order. *)
Fixpoint deliver (app : App.AccelerometerApp) (es : list WebBLE.event)
  : App.AccelerometerApp * list reaction :=
  match es with
  | [] => (app, [])
  | e :: es' =>
      let '(app1, x) := react app e in
      let '(app2, xs) := deliver app1 es' in
      (app2, x :: xs)
  end.

(** Everything the application reacts to. *)
Inductive input : Type :=
| ModeAccelChange (checked : bool)
| ModeGyroChange (checked : bool)
| ModeFusionChange (checked : bool)
| ModeFusionMagChange (checked : bool)
| ResetGyroClick
| TransportConnected
| TransportDisconnected
| SensorSample (d : App.SensorData).

Definition step (app : App.AccelerometerApp) (i : input)
  : App.AccelerometerApp :=
  match i with
  | ModeAccelChange c => fst (App.onModeAccelChange c app)
  | ModeGyroChange c => fst (App.onModeGyroChange c app)
  | ModeFusionChange c => fst (App.onModeFusionChange c app)
  | ModeFusionMagChange c => fst (App.onModeFusionMagChange c app)
  | ResetGyroClick => fst (App.onResetGyroClick app)
  | TransportConnected => fst (App.onConnected app)
  | TransportDisconnected => fst (App.onDisconnected app)
  | SensorSample d => App.next (App.handleSensorData app d)
  end.

Definition steps (app : App.AccelerometerApp) (ins : list input)
  : App.AccelerometerApp :=
  fold_left step ins app.

(** The calls made on the 3D model among a list of effects. *)
Definition modelCalls (fx : list App.effect) : list App.effect :=
  filter (fun e => match e with
                   | App.UpdateOrientationFromAccel _ _
                   | App.UpdateOrientationFromEuler _ _ => true
                   | _ => false
                   end) fx.

End Wiring.

(** ** Counting over runs *)

Module Counting.

(** A turn in which some buffer is accepted. *)
Definition accepting (tn : WebBLE.turn) : bool :=
  match tn with
  | WebBLE.Updates dvs => existsb Conditions.accepted dvs
  | _ => false
  end.

End Counting.

(** ** What the application keeps true *)

Module AppInvariant.

Definition isAccel (m : App.Mode) : bool :=
  match m with App.ModeAccel => true | _ => false end.

(** The model is loaded, the anchor is [null] or finite, the window holds
    finite times only, and smoothing is disabled exactly outside accel
    mode. *)
Definition wellFormed (app : App.AccelerometerApp) : Prop :=
  App.pcbModel app = true
  /\ (App.prevDeviceTimeSec app = None
      \/ exists a : Q, App.prevDeviceTimeSec app = Some (Fin a))
  /\ Forall (fun v => isFinite v = true) (App.msgTimestamps app)
  /\ App.smoothingDisabled app = negb (isAccel (App.mode app)).

(** A plotted angle: NaN, or a number from -180 to 180. *)
Definition plottable (c : number) : Prop :=
  c = NaN \/ exists r : Q, c = Fin r /\ -180 <= r /\ r <= 180.

(** A number within the range of binary64. *)
Definition inRange (v : number) : Prop :=
  match v with
  | Fin q => Qabs q <= MAX_VALUE
  | _ => True
  end.

Definition anglesInRange (o : option Euler) : Prop :=
  match o with
  | Some e => inRange (roll e) /\ inRange (pitch e) /\ inRange (yaw e)
  | None => True
  end.

(** The graphs that plot angles. *)
Definition angleGraph (g : App.graph) : bool :=
  match g with
  | App.gyroIntGraph | App.fusionGraph | App.fusionMagGraph => true
  | _ => false
  end.

End AppInvariant.

(** * Properties *)

(** ** Arithmetic of the number model *)

Section NumberFacts.

Lemma fin_eq (a b : Q) : a == b -> fin a = fin b.
Proof. intros H. unfold fin. f_equal. now apply Qred_complete. Qed.

Lemma Qltb_lt (a b : Q) : Qltb a b = true <-> a < b.
Proof.
  unfold Qltb. rewrite negb_true_iff. split.
  - intros H. apply Qnot_le_lt. intros L.
    apply Qle_bool_iff in L. congruence.
  - intros H. destruct (Qle_bool b a) eqn:E; [|reflexivity].
    apply Qle_bool_iff in E. lra.
Qed.

Lemma Qltb_ge (a b : Q) : Qltb a b = false <-> b <= a.
Proof.
  unfold Qltb. rewrite negb_false_iff. apply Qle_bool_iff.
Qed.

Lemma trunc_neg (q : Q) :
  q < 0 -> q <= inject_Z (trunc q) /\ inject_Z (trunc q) < q + 1.
Proof.
  intros H. unfold trunc.
  destruct (Qltb q 0) eqn:E.
  - split; [apply Qle_ceiling|].
    pose proof (Qceiling_lt q) as L.
    unfold Z.sub in L. rewrite inject_Z_plus, inject_Z_opp in L.
    change (inject_Z 1) with 1 in L. lra.
  - apply Qltb_ge in E. lra.
Qed.

Lemma trunc_nonneg (q : Q) :
  0 <= q -> inject_Z (trunc q) <= q /\ q < inject_Z (trunc q) + 1.
Proof.
  intros H. unfold trunc.
  destruct (Qltb q 0) eqn:E.
  - apply Qltb_lt in E. lra.
  - split; [apply Qfloor_le|].
    pose proof (Qlt_floor q) as L.
    rewrite inject_Z_plus in L. change (inject_Z 1) with 1 in L. lra.
Qed.

Lemma rem_360 (a : Q) :
  rem (Fin a) (Fin 360) = fin (a - 360 * inject_Z (trunc (a / 360))).
Proof. reflexivity. Qed.

(** The remainder by 360 lies strictly between -360 and 360 and is never of
    the sign opposite to the dividend's. *)
Lemma rem_360_bounds (a : Q) :
  let x := a - 360 * inject_Z (trunc (a / 360)) in
  -360 < x /\ x < 360 /\ (x < 0 -> a < 0).
Proof.
  cbv zeta.
  assert (E : a / 360 == a * (1 # 360)) by reflexivity.
  destruct (Qlt_le_dec a 0) as [N | P].
  - destruct (trunc_neg (a / 360)) as [L U]; [rewrite E; lra|].
    remember (trunc (a / 360)) as k.
    rewrite E in L, U. repeat split; try lra.
  - destruct (trunc_nonneg (a / 360)) as [L U]; [rewrite E; lra|].
    remember (trunc (a / 360)) as k.
    rewrite E in L, U. repeat split; try lra.
Qed.

(** An integer strictly between -1 and 1 is 0. *)
Lemma inject_Z_small (k : Z) : -1 < inject_Z k -> inject_Z k < 1 -> k = 0%Z.
Proof.
  intros L U.
  change (-1) with (inject_Z (-1)) in L. change 1 with (inject_Z 1) in U.
  rewrite <- Zlt_Qlt in L, U. lia.
Qed.

(** Two numbers of [-180, 180) that differ by a multiple of 360 are equal. *)
Lemma residue_unique (r s : Q) (k : Z) :
  r == s + 360 * inject_Z k ->
  -180 <= r -> r < 180 -> -180 <= s -> s < 180 -> r == s.
Proof.
  intros E Lr Ur Ls Us.
  assert (K : k = 0%Z) by (apply inject_Z_small; lra).
  subst k. rewrite E. change (inject_Z 0) with 0. lra.
Qed.

End NumberFacts.

(** ** Rounding to binary64 *)

(** *** Powers of two *)
Lemma pow2_pos (e : Z) : 0 < 2 ^ e.
Proof. apply Qpower_0_lt. reflexivity. Qed.

Lemma pow2_plus (a b : Z) : 2 ^ (a + b) == 2 ^ a * 2 ^ b.
Proof. apply Qpower_plus. discriminate. Qed.

Lemma pow2_le (a b : Z) : (a <= b)%Z -> 2 ^ a <= 2 ^ b.
Proof. intros H. apply Qpower_le_compat_l; [exact H | discriminate]. Qed.

Lemma pow2_lt (a b : Z) : (a < b)%Z -> 2 ^ a < 2 ^ b.
Proof. intros H. apply Qpower_lt_compat_l; [exact H | reflexivity]. Qed.

Lemma pow2_lt_inv (a b : Z) : 2 ^ a < 2 ^ b -> (a < b)%Z.
Proof. intros H. apply (Qpower_lt_compat_l_inv 2); [exact H | reflexivity]. Qed.

Lemma pow2_Z (z : Z) : (0 <= z)%Z -> 2 ^ z == inject_Z (2 ^ z).
Proof. intros H. symmetry. apply (Zpower_Qpower 2 z H). Qed.

Lemma pow2_succ (a : Z) : 2 ^ (a + 1) == 2 * 2 ^ a.
Proof. rewrite pow2_plus. change (2 ^ 1) with 2. ring. Qed.

(** *** The binary logarithm *)
Lemma Qlt_le_bool (a b : Q) : Qle_bool a b = false -> b < a.
Proof.
  intros H. apply Qnot_le_lt. intros L. apply Qle_bool_iff in L. congruence.
Qed.

Lemma ilog2_spec (q : Q) :
  0 < q -> 2 ^ ilog2 q <= q /\ q < 2 ^ (ilog2 q + 1).
Proof.
  intros P. destruct q as [n d].
  assert (Pn : (0 < n)%Z) by (unfold Qlt in P; cbn in P; lia).
  unfold ilog2. cbn [Qnum Qden].
  set (ln := Z.log2 n). set (ld := Z.log2 (Zpos d)).
  destruct (Z.log2_spec n Pn) as [Ln Un]. fold ln in Ln, Un.
  destruct (Z.log2_spec (Zpos d) ltac:(lia)) as [Ld Ud]. fold ld in Ld, Ud.
  assert (N0 : (0 <= ln)%Z) by apply Z.log2_nonneg.
  assert (D0 : (0 <= ld)%Z) by apply Z.log2_nonneg.
  (* as rationals *)
  assert (Qn : 2 ^ ln <= inject_Z n /\ inject_Z n < 2 ^ (ln + 1)).
  { rewrite !pow2_Z by lia. rewrite <- Zle_Qle, <- Zlt_Qlt.
    replace (ln + 1)%Z with (Z.succ ln) by lia. split; assumption. }
  assert (Qd : 2 ^ ld <= inject_Z (Zpos d) /\ inject_Z (Zpos d) < 2 ^ (ld + 1)).
  { rewrite !pow2_Z by lia. rewrite <- Zle_Qle, <- Zlt_Qlt.
    replace (ld + 1)%Z with (Z.succ ld) by lia. split; assumption. }
  assert (E : n # d == inject_Z n / inject_Z (Zpos d)) by apply Qmake_Qdiv.
  assert (Dp : 0 < inject_Z (Zpos d)) by reflexivity.
  set (e := (ln - ld)%Z).
  assert (Up : n # d < 2 ^ (e + 1)).
  { rewrite E. apply Qlt_shift_div_r; [exact Dp|].
    assert (X : 2 ^ (ln + 1) == 2 ^ (e + 1) * 2 ^ ld).
    { rewrite <- pow2_plus. unfold e. apply Qpower_comp; [reflexivity | lia]. }
    pose proof (pow2_pos (e + 1)) as Pe.
    assert (Y : 2 ^ (e + 1) * 2 ^ ld <= 2 ^ (e + 1) * inject_Z (Zpos d)).
    { apply Qmult_le_l; [exact Pe | apply Qd]. }
    destruct Qn as [_ Qn]. rewrite X in Qn. lra. }
  assert (Lo : 2 ^ (e - 1) < n # d).
  { rewrite E. apply Qlt_shift_div_l; [exact Dp|].
    assert (X : 2 ^ ln == 2 ^ (e - 1) * 2 ^ (ld + 1)).
    { rewrite <- pow2_plus. apply Qpower_comp; [reflexivity | unfold e; lia]. }
    pose proof (pow2_pos (e - 1)) as Pe.
    assert (Y : 2 ^ (e - 1) * inject_Z (Zpos d) < 2 ^ (e - 1) * 2 ^ (ld + 1)).
    { apply Qmult_lt_l; [exact Pe | apply Qd]. }
    destruct Qn as [Qn _]. rewrite X in Qn. lra. }
  destruct (Qle_bool (2 ^ e) (n # d)) eqn:C.
  - apply Qle_bool_iff in C. split; assumption.
  - apply Qlt_le_bool in C.
    replace (e - 1 + 1)%Z with e by lia. split; [lra | exact C].
Qed.

Lemma ilog2_unique (q : Q) (a : Z) :
  2 ^ a <= q -> q < 2 ^ (a + 1) -> ilog2 q = a.
Proof.
  intros L U.
  assert (P : 0 < q) by (pose proof (pow2_pos a); lra).
  destruct (ilog2_spec q P) as [L' U'].
  assert (A : (a < ilog2 q + 1)%Z) by (apply pow2_lt_inv; lra).
  assert (B : (ilog2 q < a + 1)%Z) by (apply pow2_lt_inv; lra).
  lia.
Qed.

Lemma ilog2_mono (p q : Q) : 0 < p -> p <= q -> (ilog2 p <= ilog2 q)%Z.
Proof.
  intros P H.
  destruct (ilog2_spec p P) as [L _].
  destruct (ilog2_spec q ltac:(lra)) as [_ U].
  assert (A : (ilog2 p < ilog2 q + 1)%Z) by (apply pow2_lt_inv; lra).
  lia.
Qed.


(** *** The nearest integer *)
Lemma rne_bounds (x : Q) : (Qfloor x <= rne x <= Qfloor x + 1)%Z.
Proof.
  unfold rne. destruct (Qcompare _ _); [destruct (Z.even _)| |]; lia.
Qed.

Lemma rne_Z (z : Z) : rne (inject_Z z) = z.
Proof.
  unfold rne. rewrite Qfloor_Z.
  assert (E : inject_Z z - inject_Z z == 0) by ring.
  rewrite E. reflexivity.
Qed.

#[global] Instance rne_comp : Proper (Qeq ==> eq) rne.
Proof.
  intros x y E. unfold rne.
  assert (F : Qfloor x = Qfloor y) by now apply Qfloor_comp.
  assert (C : Qcompare (x - inject_Z (Qfloor x)) (1 # 2)
              = Qcompare (y - inject_Z (Qfloor y)) (1 # 2)).
  { apply Qcompare_comp; [|reflexivity]. rewrite F, E. reflexivity. }
  cbv zeta. rewrite C, F. reflexivity.
Qed.

Lemma rne_mono (x y : Q) : x <= y -> (rne x <= rne y)%Z.
Proof.
  intros H.
  pose proof (Qfloor_resp_le x y H) as F.
  destruct (Z.eq_dec (Qfloor x) (Qfloor y)) as [E | N].
  - unfold rne. rewrite <- E.
    set (f := Qfloor x).
    destruct (Qcompare_spec (x - inject_Z f) (1 # 2)) as [Cx | Cx | Cx];
      destruct (Qcompare_spec (y - inject_Z f) (1 # 2)) as [Cy | Cy | Cy];
      try (destruct (Z.even f)); try lia; lra.
  - pose proof (rne_bounds x). pose proof (rne_bounds y). lia.
Qed.

Lemma rne_nonneg (x : Q) : 0 <= x -> (0 <= rne x)%Z.
Proof.
  intros H. pose proof (rne_mono 0 x H) as M.
  change 0 with (inject_Z 0) in M at 1. now rewrite rne_Z in M.
Qed.

(** *** The nearest binary64 number *)
Lemma exponent_unit (q : Q) :
  let u := 2 ^ (exponent q - 52) in
  0 < u /\ 2 ^ exponent q == inject_Z (2 ^ 52) * u
  /\ 2 ^ (exponent q + 1) == inject_Z (2 ^ 53) * u.
Proof.
  cbv zeta. split; [apply pow2_pos|].
  rewrite <- !pow2_Z by lia. rewrite <- !pow2_plus.
  split; apply Qpower_comp; try reflexivity; lia.
Qed.

Lemma nearestPos_nonneg (q : Q) : 0 <= q -> 0 <= nearestPos q.
Proof.
  intros H. unfold nearestPos.
  pose proof (pow2_pos (exponent q - 52)) as U.
  apply Qmult_le_0_compat; [|lra].
  change 0 with (inject_Z 0). rewrite <- Zle_Qle. apply rne_nonneg.
  apply Qle_shift_div_l; [exact U | lra].
Qed.

(** Above: the result never passes the next power of two. *)
Lemma nearestPos_upper (q : Q) :
  0 < q -> nearestPos q <= 2 ^ (exponent q + 1).
Proof.
  intros P. unfold nearestPos.
  destruct (exponent_unit q) as (U & _ & T). cbv zeta in *.
  set (u := 2 ^ (exponent q - 52)) in *.
  rewrite T. apply Qmult_le_r; [exact U|].
  rewrite <- Zle_Qle. rewrite <- (rne_Z (2 ^ 53)). apply rne_mono.
  apply Qle_shift_div_r; [exact U|]. rewrite <- T.
  destruct (ilog2_spec q P) as [_ Up].
  assert (M : 2 ^ (ilog2 q + 1) <= 2 ^ (exponent q + 1))
    by (apply pow2_le; unfold exponent; lia).
  lra.
Qed.

(** Below, for a normal number: the result is at least its power of two. *)
Lemma nearestPos_lower (q : Q) :
  0 < q -> (-1022 <= ilog2 q)%Z -> 2 ^ ilog2 q <= nearestPos q.
Proof.
  intros P N. unfold nearestPos.
  assert (Ex : exponent q = ilog2 q) by (unfold exponent; lia).
  destruct (exponent_unit q) as (U & T & _). cbv zeta in *.
  set (u := 2 ^ (exponent q - 52)) in *.
  rewrite <- Ex, T. apply Qmult_le_r; [exact U|].
  rewrite <- Zle_Qle. rewrite <- (rne_Z (2 ^ 52)) at 1. apply rne_mono.
  apply Qle_shift_div_l; [exact U|]. rewrite <- T, Ex.
  apply (ilog2_spec q P).
Qed.

Lemma nearestPos_zero (q : Q) : q == 0 -> nearestPos q == 0.
Proof.
  intros E. unfold nearestPos.
  remember (2 ^ (exponent q - 52)) as u.
  assert (Z0 : q / u == inject_Z 0).
  { rewrite E. unfold Qdiv. ring. }
  rewrite Z0, rne_Z. ring.
Qed.

Lemma nearestPos_mono (p q : Q) :
  0 <= p -> p <= q -> nearestPos p <= nearestPos q.
Proof.
  intros P H.
  destruct (Qeq_dec p 0) as [Z0 | NZ].
  - rewrite (nearestPos_zero p Z0). apply nearestPos_nonneg. lra.
  - assert (Pp : 0 < p) by (destruct (Qlt_le_dec 0 p); [assumption|];
                            exfalso; apply NZ; lra).
    assert (Pq : 0 < q) by lra.
    pose proof (ilog2_mono p q Pp H) as I.
    destruct (Z.eq_dec (exponent p) (exponent q)) as [E | N].
    + unfold nearestPos. rewrite E.
      pose proof (pow2_pos (exponent q - 52)) as U.
      apply Qmult_le_r; [exact U|]. rewrite <- Zle_Qle. apply rne_mono.
      apply Qmult_le_r; [now apply Qinv_lt_0_compat | exact H].
    + assert (Lt : (exponent p < exponent q)%Z) by (unfold exponent in *; lia).
      assert (Nq : (-1022 <= ilog2 q)%Z) by (unfold exponent in *; lia).
      assert (Eq : exponent q = ilog2 q) by (unfold exponent in *; lia).
      pose proof (nearestPos_upper p Pp) as Up.
      pose proof (nearestPos_lower q Pq Nq) as Lo.
      assert (M : 2 ^ (exponent p + 1) <= 2 ^ ilog2 q)
        by (apply pow2_le; lia).
      lra.
Qed.

Lemma nearestPos_comp (p q : Q) : 0 <= p -> p == q -> nearestPos p == nearestPos q.
Proof.
  intros P E. apply Qle_antisym; apply nearestPos_mono; lra.
Qed.


Lemma nearest_nonneg (q : Q) : 0 <= q -> 0 <= nearest q /\ nearest q == nearestPos q.
Proof.
  intros H. unfold nearest.
  assert (E : Qltb q 0 = false).
  { unfold Qltb. apply negb_false_iff. now apply Qle_bool_iff. }
  rewrite E. split; [now apply nearestPos_nonneg | reflexivity].
Qed.

Lemma nearest_neg (q : Q) : q < 0 -> nearest q <= 0 /\ nearest q == - nearestPos (- q).
Proof.
  intros H. unfold nearest.
  assert (E : Qltb q 0 = true).
  { unfold Qltb. apply negb_true_iff.
    destruct (Qle_bool 0 q) eqn:C; [|reflexivity].
    apply Qle_bool_iff in C. lra. }
  rewrite E. split; [|reflexivity].
  pose proof (nearestPos_nonneg (- q) ltac:(lra)). lra.
Qed.

Lemma nearest_mono (p q : Q) : p <= q -> nearest p <= nearest q.
Proof.
  intros H.
  destruct (Qlt_le_dec p 0) as [Np | Pp]; destruct (Qlt_le_dec q 0) as [Nq | Pq].
  - destruct (nearest_neg p Np) as [_ ->]. destruct (nearest_neg q Nq) as [_ ->].
    pose proof (nearestPos_mono (- q) (- p) ltac:(lra) ltac:(lra)). lra.
  - destruct (nearest_neg p Np) as [A _]. destruct (nearest_nonneg q Pq) as [B _].
    lra.
  - lra.
  - destruct (nearest_nonneg p Pp) as [_ ->]. destruct (nearest_nonneg q Pq) as [_ ->].
    now apply nearestPos_mono.
Qed.

(** *** [round] is monotone *)
Lemma round_cases (q : Q) :
  (round q = fin (nearest q) /\ Qabs (nearest q) < 2 ^ 1024)
  \/ (round q = PosInf /\ 0 <= q /\ 2 ^ 1024 <= nearest q)
  \/ (round q = NegInf /\ q < 0 /\ nearest q <= - 2 ^ 1024).
Proof.
  unfold round. cbv zeta.
  destruct (Qle_bool (2 ^ 1024) (Qabs (nearest q))) eqn:C.
  - apply Qle_bool_iff in C. right.
    destruct (Qlt_le_dec q 0) as [N | P].
    + right. destruct (nearest_neg q N) as [S _].
      assert (E : Qltb q 0 = true).
      { unfold Qltb. apply negb_true_iff.
        destruct (Qle_bool 0 q) eqn:D; [|reflexivity].
        apply Qle_bool_iff in D. lra. }
      rewrite E. split; [reflexivity|]. split; [exact N|].
      rewrite (Qabs_neg _ S) in C. lra.
    + left. destruct (nearest_nonneg q P) as [S _].
      assert (E : Qltb q 0 = false).
      { unfold Qltb. apply negb_false_iff. now apply Qle_bool_iff. }
      rewrite E. split; [reflexivity|]. split; [exact P|].
      rewrite (Qabs_pos _ S) in C. exact C.
  - left. split; [reflexivity|]. now apply Qlt_le_bool.
Qed.

Lemma round_mono (p q : Q) : p <= q -> atMost (round p) (round q).
Proof.
  intros H. pose proof (nearest_mono p q H) as M.
  pose proof (pow2_pos 1024) as B.
  destruct (round_cases p) as [[-> Fp] | [[-> [Pp Op]] | [-> [Np Op]]]];
    destruct (round_cases q) as [[-> Fq] | [[-> [Pq Oq]] | [-> [Nq Oq]]]];
    unfold fin; cbn [atMost]; try exact I; rewrite ?Qred_correct;
    try exact M;
    try (apply Qabs_Qlt_condition in Fp); try (apply Qabs_Qlt_condition in Fq);
    lra.
Qed.

#[global] Instance round_comp : Proper (Qeq ==> eq) round.
Proof.
  intros p q E.
  assert (N : nearest p == nearest q)
    by (apply Qle_antisym; apply nearest_mono; lra).
  unfold round. cbv zeta. rewrite N.
  assert (S : Qltb p 0 = Qltb q 0) by (unfold Qltb; now rewrite E).
  rewrite S. destruct (Qle_bool _ _); [reflexivity|].
  unfold fin. f_equal. now apply Qred_complete.
Qed.

(** *** [round] leaves binary64 numbers alone *)
Lemma round_between (s L U l u : Q) :
  L <= s -> s <= U -> round L = Fin l -> round U = Fin u ->
  exists r : Q, round s = Fin r /\ l <= r /\ r <= u.
Proof.
  intros H1 H2 EL EU.
  pose proof (round_mono L s H1) as M1. pose proof (round_mono s U H2) as M2.
  rewrite EL in M1. rewrite EU in M2.
  destruct (round s) as [r| | |]; cbn [atMost] in M1, M2; try contradiction.
  exists r. now split.
Qed.

Lemma nearestPos_exact (q : Q) (m g : Z) :
  (0 < m < 2 ^ 53)%Z -> (-1074 <= g)%Z -> q == inject_Z m * 2 ^ g ->
  nearestPos q == q.
Proof.
  intros M G E.
  pose proof (pow2_pos g) as Pg.
  assert (Mq : 0 < inject_Z m /\ inject_Z m < inject_Z (2 ^ 53)).
  { split; [change 0 with (inject_Z 0)|]; rewrite <- Zlt_Qlt; lia. }
  assert (P : 0 < q).
  { rewrite E. apply Qmult_lt_0_compat; [apply Mq | exact Pg]. }
  assert (I : (ilog2 q < 53 + g)%Z).
  { apply pow2_lt_inv. destruct (ilog2_spec q P) as [L _].
    rewrite (pow2_plus 53 g), (pow2_Z 53) by lia.
    assert (X : inject_Z m * 2 ^ g < inject_Z (2 ^ 53) * 2 ^ g)
      by (apply Qmult_lt_r; [exact Pg | apply Mq]).
    lra. }
  unfold nearestPos.
  set (d := (g - (exponent q - 52))%Z).
  assert (D : (0 <= d)%Z) by (unfold d, exponent; lia).
  pose proof (pow2_pos (exponent q - 52)) as U.
  assert (Eg : 2 ^ g == inject_Z (2 ^ d) * 2 ^ (exponent q - 52)).
  { rewrite <- pow2_Z by lia. rewrite <- pow2_plus.
    apply Qpower_comp; [reflexivity | unfold d; lia]. }
  remember (2 ^ (exponent q - 52)) as u.
  assert (Q : q / u == inject_Z (m * 2 ^ d)).
  { rewrite E, Eg, inject_Z_mult. field. lra. }
  rewrite Q, rne_Z, E, Eg, inject_Z_mult. ring.
Qed.

Lemma round_zero (q : Q) : q == 0 -> round q = Fin 0.
Proof. intros E. rewrite E. reflexivity. Qed.

(** A multiple of [2 ^ - k] below [2 ^ (53 - k)] in magnitude is a binary64
    number: rounding leaves it as it is. *)
Lemma round_grid (k : Z) (q : Q) :
  (0 <= k <= 1074)%Z -> Angles.places k q -> Qabs q * 2 ^ k < inject_Z (2 ^ 53) ->
  round q = fin q.
Proof.
  intros K (m & E) B.
  pose proof (pow2_pos k) as Pk.
  assert (Eq : q == inject_Z m * 2 ^ (- k)).
  { rewrite <- E, <- Qmult_assoc, <- pow2_plus.
    replace (k + - k)%Z with 0%Z by lia. change (2 ^ 0) with 1. ring. }
  assert (Small : forall v, 0 <= v -> v * 2 ^ k < inject_Z (2 ^ 53) ->
                            v < 2 ^ 1024).
  { intros v V H.
    assert (C : 1 <= 2 ^ k) by (change 1 with (2 ^ 0); apply pow2_le; lia).
    assert (Y : inject_Z (2 ^ 53) < 2 ^ 1024) by reflexivity.
    remember (2 ^ k) as c. remember (2 ^ 1024) as big.
    remember (inject_Z (2 ^ 53)) as mid. nra. }
  destruct (Qlt_le_dec q 0) as [N | P].
  - (* negative *)
    assert (Mn : (0 < - m < 2 ^ 53)%Z).
    { rewrite (Qabs_neg q) in B by lra.
      assert (X : - q * 2 ^ k == inject_Z (- m))
        by (rewrite inject_Z_opp, <- E; ring).
      rewrite X in B. rewrite <- Zlt_Qlt in B.
      assert (Y : inject_Z 0 < inject_Z (- m)).
      { rewrite <- X. change (inject_Z 0) with 0.
        apply Qmult_lt_0_compat; lra. }
      rewrite <- Zlt_Qlt in Y. lia. }
    assert (En : - q == inject_Z (- m) * 2 ^ (- k))
      by (rewrite inject_Z_opp, Eq; ring).
    pose proof (nearestPos_exact (- q) (- m) (- k) Mn ltac:(lia) En) as X.
    destruct (nearest_neg q N) as [_ Nq].
    assert (V : nearest q == q) by (rewrite Nq, X; ring).
    destruct (round_cases q) as [[-> _] | [[_ [C _]] | [_ [_ C]]]].
    + now apply fin_eq.
    + lra.
    + exfalso. rewrite V in C.
      pose proof (Small (- q) ltac:(lra)) as S.
      rewrite (Qabs_neg q) in B by lra. specialize (S B). lra.
  - destruct (Qeq_dec q 0) as [Z0 | NZ].
    + rewrite (round_zero q Z0). change (Fin 0) with (fin 0).
      apply fin_eq. now symmetry.
    + assert (Pq : 0 < q) by (destruct (Qlt_le_dec 0 q); [assumption|];
                              exfalso; apply NZ; lra).
      assert (Mp : (0 < m < 2 ^ 53)%Z).
      { rewrite (Qabs_pos q) in B by lra. rewrite E in B.
        rewrite <- Zlt_Qlt in B.
        assert (Y : inject_Z 0 < inject_Z m).
        { rewrite <- E. change (inject_Z 0) with 0.
          apply Qmult_lt_0_compat; lra. }
        rewrite <- Zlt_Qlt in Y. lia. }
      pose proof (nearestPos_exact q m (- k) Mp ltac:(lia) Eq) as X.
      destruct (nearest_nonneg q P) as [_ Nq].
      assert (V : nearest q == q) by (rewrite Nq, X; reflexivity).
      destruct (round_cases q) as [[-> _] | [[_ [_ C]] | [_ [C _]]]].
      * now apply fin_eq.
      * exfalso. rewrite V in C.
        pose proof (Small q P) as S.
        rewrite (Qabs_pos q) in B by lra. specialize (S B). lra.
      * lra.
Qed.

(** *** [round] against the kernel's binary64 arithmetic *)

(** On each of the pairs of [Kernel.pairs] the kernel's sum and difference
    are the numbers that [add] and [minus] give. *)
Example round_agrees_with_kernel :
  forallb (fun p => Kernel.agree (fst p) (snd p)) Kernel.pairs = true.
Proof. vm_compute. reflexivity. Qed.

(** ** The angle normalizer *)

Lemma round_constants :
  round 0 = Fin 0 /\ round 180 = Fin 180 /\ round (-180) = Fin (-180)
  /\ round 360 = Fin 360
  /\ round (MAX_VALUE + 180) = Fin MAX_VALUE
  /\ round (- MAX_VALUE + 180) = Fin (- MAX_VALUE).
Proof. vm_compute. repeat split. Qed.

(** Whatever binary64 number comes in, a number from -180 to 180 comes
    out. *)
Lemma normalize180_closed (q : Q) :
  Qabs q <= MAX_VALUE ->
  exists r : Q, App.normalize180 (Fin q) = Fin r /\ -180 <= r /\ r <= 180.
Proof.
  intros B. apply Qabs_Qle_condition in B.
  destruct round_constants as (R0 & R180 & Rm180 & R360 & Rmax & Rmin).
  unfold App.normalize180. cbn [add].
  destruct (round_between (q + 180) (- MAX_VALUE + 180) (MAX_VALUE + 180)
              _ _ ltac:(lra) ltac:(lra) Rmin Rmax) as (a & -> & _).
  rewrite rem_360.
  set (k := trunc (a / 360)).
  pose proof (rem_360_bounds a) as Bx. cbv zeta in Bx. fold k in Bx.
  set (x := a - 360 * inject_Z k) in *.
  unfold fin. cbn [lt].
  assert (Ex : Qred x == x) by apply Qred_correct.
  destruct (Qltb (Qred x) 0) eqn:E.
  - apply Qltb_lt in E. cbn [add].
    destruct (round_between (Qred x + 360) 0 360 _ _ ltac:(lra) ltac:(lra)
                R0 R360) as (y & -> & Ly & Uy).
    cbn [minus].
    destruct (round_between (y - 180) (-180) 180 _ _ ltac:(lra) ltac:(lra)
                Rm180 R180) as (r & -> & Lr & Ur).
    exists r. now repeat split.
  - apply Qltb_ge in E. cbn [minus].
    destruct (round_between (Qred x - 180) (-180) 180 _ _
                ltac:(lra) ltac:(lra) Rm180 R180) as (r & -> & Lr & Ur).
    exists r. now repeat split.
Qed.

Lemma normalize180_nonfinite (v : number) :
  isFinite v = false -> App.normalize180 v = NaN.
Proof. destruct v; [discriminate | reflexivity..]. Qed.

(** *** Angles with few binary places *)

Lemma places_comp (k : Z) (p q : Q) :
  p == q -> Angles.places k p -> Angles.places k q.
Proof. intros E (m & H). exists m. now rewrite <- E. Qed.

Lemma places_Z (k z : Z) : (0 <= k)%Z -> Angles.places k (inject_Z z).
Proof.
  intros K. exists (z * 2 ^ k)%Z.
  rewrite inject_Z_mult, pow2_Z by exact K. reflexivity.
Qed.

Lemma places_plus (k : Z) (p q : Q) :
  Angles.places k p -> Angles.places k q -> Angles.places k (p + q).
Proof.
  intros (m & Hm) (n & Hn). exists (m + n)%Z.
  rewrite inject_Z_plus, <- Hm, <- Hn. ring.
Qed.

Lemma places_minus (k : Z) (p q : Q) :
  Angles.places k p -> Angles.places k q -> Angles.places k (p - q).
Proof.
  intros (m & Hm) (n & Hn). exists (m - n)%Z.
  unfold Z.sub. rewrite inject_Z_plus, inject_Z_opp, <- Hm, <- Hn. ring.
Qed.

(** The sums [normalize180] makes of such an angle are not rounded. *)
Lemma round_exact (room : Q) (k : Z) (q v : Q) :
  Angles.exact room k q -> Angles.places k v -> Qabs v < Qabs q + room ->
  round v = fin v.
Proof.
  intros (K & _ & B) G H.
  apply (round_grid k); [lia | exact G |].
  pose proof (pow2_pos k) as Pk.
  remember (2 ^ k) as c. remember (inject_Z (2 ^ 53)) as mid.
  remember (Qabs q) as aq. remember (Qabs v) as av. nra.
Qed.

(** On such an angle the result is the residue modulo 360 that lies in
    [-180, 180), and it has no more binary places than the angle. *)
Lemma normalize180_residue (k : Z) (q : Q) :
  Angles.exact 540 k q ->
  exists (r : Q) (j : Z),
    App.normalize180 (Fin q) = fin r
    /\ r == q + 360 * inject_Z j /\ -180 <= r /\ r < 180
    /\ Angles.places k r.
Proof.
  intros X. pose proof X as (K & G & _).
  pose proof (Qabs_nonneg q) as A0.
  assert (G180 : Angles.places k 180) by (apply (places_Z k 180); lia).
  assert (G360 : Angles.places k 360) by (apply (places_Z k 360); lia).
  unfold App.normalize180. cbn [add].
  rewrite (round_exact 540 k q (q + 180) X).
  2: now apply places_plus.
  2: { pose proof (Qabs_triangle q 180) as T.
       change (Qabs 180) with 180 in T. lra. }
  unfold fin at 1 2 3. rewrite rem_360.
  set (a := Qred (q + 180)). set (t := trunc (a / 360)).
  pose proof (rem_360_bounds a) as B. cbv zeta in B. fold t in B.
  assert (Ea : a == q + 180) by apply Qred_correct.
  set (x := a - 360 * inject_Z t) in *.
  assert (Gx : Angles.places k x).
  { unfold x. apply places_minus.
    - apply (places_comp k (q + 180)); [now symmetry | now apply places_plus].
    - apply (places_comp k (inject_Z (360 * t))).
      + rewrite inject_Z_mult. reflexivity.
      + apply places_Z. lia. }
  unfold fin at 1 2 3. cbn [lt].
  assert (Ex : Qred x == x) by apply Qred_correct.
  assert (Gx' : Angles.places k (Qred x))
    by (apply (places_comp k x); [now symmetry | exact Gx]).
  destruct (Qltb (Qred x) 0) eqn:E.
  - apply Qltb_lt in E. cbn [add].
    rewrite (round_exact 540 k q (Qred x + 360) X).
    2: now apply places_plus.
    2: { apply Qabs_Qlt_condition. lra. }
    unfold fin at 1. cbn [minus].
    assert (Ey : Qred (Qred x + 360) == x + 360)
      by (rewrite Qred_correct, Ex; reflexivity).
    assert (Gy : Angles.places k (Qred (Qred x + 360) - 180)).
    { apply places_minus; [|exact G180].
      apply (places_comp k (Qred x + 360));
        [symmetry; apply Qred_correct | now apply places_plus]. }
    rewrite (round_exact 540 k q _ X Gy).
    2: { apply Qabs_Qlt_condition. lra. }
    exists (Qred (Qred x + 360) - 180), (1 - t)%Z.
    split; [reflexivity|].
    unfold Z.sub. rewrite inject_Z_plus, inject_Z_opp.
    change (inject_Z 1) with 1.
    split; [rewrite Ey; unfold x; lra|].
    split; [lra|]. split; [lra | exact Gy].
  - apply Qltb_ge in E. cbn [minus].
    assert (Gy : Angles.places k (Qred x - 180))
      by (now apply places_minus).
    rewrite (round_exact 540 k q _ X Gy).
    2: { apply Qabs_Qlt_condition. lra. }
    exists (Qred x - 180), (- t)%Z.
    split; [reflexivity|].
    rewrite inject_Z_opp.
    split; [rewrite Ex; unfold x; lra|].
    split; [lra|]. split; [lra | exact Gy].
Qed.




(** Values of [normalize180] where rounding shows; the inputs are binary64
    numbers, which [round] leaves alone. *)
Lemma normalize180_values :
  App.normalize180 (Fin 180) = Fin (-180)
  /\ round Angles.belowMinus180 = fin Angles.belowMinus180
  /\ App.normalize180 (Fin Angles.belowMinus180) = Fin 180
  /\ round Angles.tenth = fin Angles.tenth
  /\ App.normalize180 (Fin Angles.tenth)
     = Fin (3518437208883 # 35184372088832)
  /\ App.normalize180 (add (Fin Angles.tenth) (Fin 360))
     = Fin (879609302221 # 8796093022208)
  /\ Reference.normalize Angles.belowMinus180
     == 180 - 2 ^ (-45)
  /\ Reference.normalize Angles.tenth == Angles.tenth.
Proof. vm_compute. repeat split. Qed.

(** C3, as the code has it: [normalize180] maps every finite input, that is
    every binary64 number, into the closed range from -180 to 180; in
    particular [normalize180(180)] is -180, not 180.  Both ends are reached:
    -180 at 180, and 180 at the binary64 number just below -180, where
    [x + 360] rounds to 360. *)
Theorem normalize180_range :
  (forall q : Q,
      Qabs q <= MAX_VALUE ->
      exists r : Q,
        App.normalize180 (Fin q) = Fin r /\ -180 <= r /\ r <= 180)
  /\ App.normalize180 (Fin 180) = Fin (-180)
  /\ App.normalize180 (Fin Angles.belowMinus180) = Fin 180.
Proof.
  split; [exact normalize180_closed|].
  destruct normalize180_values as (A & _ & B & _). now split.
Qed.

Lemma normalize180_range_witness :
  exists r : Q,
    App.normalize180 (Fin Angles.tenth) = Fin r /\ -180 <= r /\ r <= 180.
Proof.
  apply (proj1 normalize180_range Angles.tenth).
  unfold Qle. vm_compute. discriminate.
Defined.

(** C3, as the specification words it, fails at 180: the result is -180,
    which is neither 180 nor inside (-180, 180]. *)
Lemma normalize180_180_not_in_spec_range :
  App.normalize180 (Fin 180) <> Fin 180
  /\ ~ (exists r : Q,
          App.normalize180 (Fin 180) = Fin r /\ -180 < r /\ r <= 180).
Proof.
  destruct normalize180_values as (A & _).
  split.
  - rewrite A. discriminate.
  - intros (r & E & L & _).
    rewrite A in E. injection E as <-. lra.
Qed.




(** ** The clock tracker *)

Section Clock.

Import App.

Lemma handleSensorData_clock (app : AccelerometerApp) (data : SensorData) :
  pcbModel app = true ->
  let c := clockTracker (prevDeviceTimeSec app) (t data) in
  dt (handleSensorData app data) = Some (snd c)
  /\ prevDeviceTimeSec (next (handleSensorData app data)) = fst c
  /\ (forall e, In e (dispatch (mode app) data (snd c)) ->
                In e (effects (handleSensorData app data))).
Proof.
  intros M. unfold handleSensorData. rewrite M.
  unfold clockTracker. cbn [fst snd dt next prevDeviceTimeSec effects].
  repeat split.
  intros e H. apply in_cons, in_or_app. left. exact H.
Qed.

(** The anchor is never anything but [null] or a finite number. *)
Lemma handleSensorData_anchor_finite (app : AccelerometerApp)
      (data : SensorData) (v : number) :
  prevDeviceTimeSec app = None \/ (exists a, prevDeviceTimeSec app = Some (Fin a)) ->
  prevDeviceTimeSec (next (handleSensorData app data)) = Some v ->
  exists a, v = Fin a.
Proof.
  intros A. unfold handleSensorData, clockTracker.
  destruct (pcbModel app); cbn [next prevDeviceTimeSec].
  - destruct (t data); cbn [isFinite]; try discriminate.
    intros [= <-]. eauto.
  - destruct A as [-> | [a ->]]; [discriminate|].
    intros [= <-]. eauto.
Qed.

(** Where the two times have at most [k] binary places and their difference
    is below [2 ^ (53 - k)] in magnitude, the difference is a binary64
    number: rounding it changes nothing. *)
Lemma minus_sub (k : Z) (q a : Q) :
  (0 <= k <= 1074)%Z -> Angles.places k q -> Angles.places k a ->
  Qabs (q - a) * 2 ^ k < inject_Z (2 ^ 53) ->
  minus (Fin q) (Fin a) = sub (Fin q) (Fin a).
Proof.
  intros K P A B. cbn [minus sub].
  apply (round_grid k); [exact K | now apply places_minus | exact B].
Qed.

(** Where it is not, the two differ: [2 ^ -60 - 1] rounds to -1, so with the
    window [-1] and the time [2 ^ -60] the rounded limit keeps the entry -1
    that the limit before rounding evicts. *)
Example rounded_limit_keeps_more :
  minus (Fin (2 ^ (-60))) (Fin 1) = Fin (-1)
  /\ evict (minus (Fin (2 ^ (-60))) (Fin 1)) [Fin (-1); Fin (2 ^ (-60))]
     = [Fin (-1); Fin (2 ^ (-60))]
  /\ evict (sub (Fin (2 ^ (-60))) (Fin 1)) [Fin (-1); Fin (2 ^ (-60))]
     = [Fin (2 ^ (-60))].
Proof. vm_compute. repeat split. Qed.

End Clock.

(** C4, as the code has it: on a sample whose device time is not finite the
    clock tracker reports [dt = 0] and sets the anchor to [null]; the stored
    previous device time is discarded, not kept. *)
Theorem clock_nonfinite_time
        (app : App.AccelerometerApp) (data : App.SensorData) :
  App.pcbModel app = true ->
  isFinite (App.t data) = false ->
  App.dt (App.handleSensorData app data) = Some (Fin 0)
  /\ App.prevDeviceTimeSec (App.next (App.handleSensorData app data)) = None.
Proof.
  intros M F.
  destruct (handleSensorData_clock app data M) as (D & P & _).
  rewrite D, P. unfold App.clockTracker. rewrite F. cbn [fst snd].
  split; [|reflexivity].
  destruct (App.prevDeviceTimeSec app); reflexivity.
Qed.

Lemma clock_nonfinite_time_witness :
  App.dt (App.handleSensorData (Fixtures.anchored (Fin 10))
                               (Fixtures.sampleAt NaN)) = Some (Fin 0)
  /\ App.prevDeviceTimeSec
       (App.next (App.handleSensorData (Fixtures.anchored (Fin 10))
                                       (Fixtures.sampleAt NaN))) = None.
Proof.
  apply (clock_nonfinite_time (Fixtures.anchored (Fin 10))
                              (Fixtures.sampleAt NaN)); reflexivity.
Defined.

(** C4, as the specification words it, fails with anchor 10 and a NaN device
    time: [dt] is 0, but the anchor does not stay 10, it becomes [null]. *)
Lemma clock_nonfinite_time_drops_anchor :
  App.prevDeviceTimeSec (Fixtures.anchored (Fin 10)) = Some (Fin 10)
  /\ App.dt (App.handleSensorData (Fixtures.anchored (Fin 10))
                                  (Fixtures.sampleAt NaN)) = Some (Fin 0)
  /\ App.prevDeviceTimeSec
       (App.next (App.handleSensorData (Fixtures.anchored (Fin 10))
                                       (Fixtures.sampleAt NaN))) = None.
Proof. repeat split. Qed.



(** C9: the [change] listener of the gyro radio button sets the mode to
    gyro and the clock anchor to [null], so the first sample handled
    afterwards is dispatched with [dt = 0], whatever the anchor was. *)
Theorem gyro_mode_resets_clock
        (app : App.AccelerometerApp) (data : App.SensorData) :
  App.pcbModel app = true ->
  App.mode (fst (App.onModeGyroChange true app)) = App.ModeGyro
  /\ App.prevDeviceTimeSec (fst (App.onModeGyroChange true app)) = None
  /\ App.dt (App.handleSensorData (fst (App.onModeGyroChange true app)) data)
     = Some (Fin 0)
  /\ In (App.UpdateOrientationFromEuler (App.gyroInt data) (Fin 0))
        (App.effects
           (App.handleSensorData (fst (App.onModeGyroChange true app)) data)).
Proof.
  intros M.
  set (app' := fst (App.onModeGyroChange true app)).
  assert (M' : App.pcbModel app' = true) by exact M.
  destruct (handleSensorData_clock app' data M') as (D & _ & C).
  repeat split.
  - exact D.
  - apply C. left. reflexivity.
Qed.

Lemma gyro_mode_resets_clock_witness :
  App.dt (App.handleSensorData
            (fst (App.onModeGyroChange true (Fixtures.anchored (Fin 10))))
            (Fixtures.sampleAt (Fin (1001 # 100))))
  = Some (Fin 0).
Proof.
  exact (proj1 (proj2 (proj2
    (gyro_mode_resets_clock (Fixtures.anchored (Fin 10))
                            (Fixtures.sampleAt (Fin (1001 # 100)))
                            eq_refl)))).
Defined.

(** ** The rate meter *)

Section Rate.

Import App.

Lemma handleSensorData_rate (app : AccelerometerApp) (data : SensorData) :
  msgTimestamps (next (handleSensorData app data))
    = rateWindow (msgTimestamps app) (t data)
  /\ hd_error (effects (handleSensorData app data))
     = Some (SetMsgRate (length (rateWindow (msgTimestamps app) (t data)))).
Proof.
  unfold handleSensorData, clockTracker.
  destruct (pcbModel app); split; reflexivity.
Qed.

(** [evict] removes exactly the longest prefix of entries below the limit. *)
Lemma evict_prefix (limit : number) (ts : list number) :
  exists pre : list number,
    ts = pre ++ evict limit ts
    /\ Forall (fun h => lt h limit = true) pre
    /\ (forall h rest, evict limit ts = h :: rest -> lt h limit = false).
Proof.
  induction ts as [|h tl IH].
  - exists []. repeat split; [constructor | discriminate].
  - cbn [evict]. destruct (lt h limit) eqn:E.
    + destruct IH as (pre & P & F & N).
      exists (h :: pre). repeat split.
      * cbn [List.app]. now rewrite <- P.
      * now constructor.
      * exact N.
    + exists []. repeat split; [constructor|].
      intros h' rest [= <- _]. exact E.
Qed.

End Rate.




(** ** The packet listener *)

Section Listener.

Import WebBLE Conditions.

Lemma getFloat32_some (dv : DataView) (off : nat) :
  (off + 4 <= length dv)%nat ->
  getFloat32 dv off = Some (ofBits (word32 dv off)).
Proof.
  intros H. unfold getFloat32.
  destruct (Nat.ltb_spec (length dv) (off + 4)); [lia | reflexivity].
Qed.

Lemma getFloat32_none (dv : DataView) (off : nat) :
  (length dv < off + 4)%nat -> getFloat32 dv off = None.
Proof.
  intros H. unfold getFloat32.
  destruct (Nat.ltb_spec (length dv) (off + 4)); [reflexivity | lia].
Qed.

(** A read that ends inside the first [n] bytes only sees those bytes. *)
Lemma getFloat32_firstn (dv : DataView) (n off : nat) :
  (off + 4 <= n)%nat -> (n <= length dv)%nat ->
  getFloat32 (firstn n dv) off = getFloat32 dv off.
Proof.
  intros H L.
  rewrite !getFloat32_some by (rewrite ?length_firstn; lia).
  unfold word32, byteAt.
  rewrite !nth_firstn.
  repeat match goal with
         | |- context [(?i <? n)%nat] =>
             destruct (Nat.ltb_spec i n); [|lia]
         end.
  reflexivity.
Qed.

Lemma readValues_short (dv : DataView) (n i : nat) :
  (0 < n)%nat -> (length dv < (i + n) * 4)%nat -> readValues dv n i = None.
Proof.
  revert i. induction n as [|n IH]; intros i P H; [lia|].
  cbn [readValues].
  destruct (getFloat32 dv (i * 4)) as [v|] eqn:G; [|reflexivity].
  destruct n as [|n].
  - rewrite getFloat32_none in G by lia. discriminate.
  - rewrite (IH (S i)) by lia. reflexivity.
Qed.

Lemma readValues_long (dv : DataView) (n i : nat) :
  ((i + n) * 4 <= length dv)%nat ->
  exists vs, readValues dv n i = Some vs /\ length vs = n.
Proof.
  revert i. induction n as [|n IH]; intros i H.
  - exists []. split; reflexivity.
  - cbn [readValues]. rewrite getFloat32_some by lia.
    destruct (IH (S i)) as (vs & E & L); [lia|].
    rewrite E. eexists. split; [reflexivity|]. cbn [length]. now rewrite L.
Qed.

Lemma readValues_firstn (dv : DataView) (m n i : nat) :
  ((i + n) * 4 <= m)%nat -> (m <= length dv)%nat ->
  readValues (firstn m dv) n i = readValues dv n i.
Proof.
  revert i. induction n as [|n IH]; intros i H L; [reflexivity|].
  cbn [readValues].
  rewrite getFloat32_firstn by lia.
  rewrite (IH (S i)) by lia. reflexivity.
Qed.

(** The [k]-th value read is the float at byte offset [4 (i + k)]. *)
Lemma readValues_nth (dv : DataView) (n i k : nat) (vs : list number) :
  readValues dv n i = Some vs -> (k < n)%nat ->
  getFloat32 dv ((i + k) * 4) = Some (at_ vs k).
Proof.
  revert i k vs. induction n as [|n IH]; intros i k vs E K; [lia|].
  cbn [readValues] in E.
  destruct (getFloat32 dv (i * 4)) as [v|] eqn:G; [|discriminate].
  destruct (readValues dv n (S i)) as [vs'|] eqn:R; [|discriminate].
  injection E as <-.
  destruct k as [|k].
  - rewrite Nat.add_0_r. exact G.
  - replace (i + S k)%nat with (S i + k)%nat by lia.
    unfold at_. cbn [nth]. apply (IH (S i) k vs' R). lia.
Qed.

Lemma onPacket_short (dv : DataView) (r : Runtime) :
  (length dv < 80)%nat -> onPacket dv r = (RangeError, r).
Proof.
  intros H. unfold onPacket.
  rewrite readValues_short by lia. reflexivity.
Qed.

Lemma onPacket_firstn (dv : DataView) (r : Runtime) :
  (80 <= length dv)%nat -> onPacket dv r = onPacket (firstn 80 dv) r.
Proof.
  intros H. unfold onPacket.
  rewrite (readValues_firstn dv 80 20 0) by lia. reflexivity.
Qed.

End Listener.

(** ** Scheduling and the event loop *)

Section Scheduling.

Import WebBLE Conditions.

Lemma samples_app (a b : list event) :
  samples (a ++ b) = samples a ++ samples b.
Proof.
  induction a as [|e a IH]; [reflexivity|].
  destruct e; cbn [List.app samples]; rewrite IH; reflexivity.
Qed.

Lemma schedule_not_ready (r : Runtime) :
  ready (this r) = false -> scheduleEmitIfReady r = r.
Proof.
  unfold ready, scheduleEmitIfReady. intros H.
  destruct (emitScheduled (this r)); [reflexivity|].
  destruct (isSet (latestAccel (this r))), (isSet (latestGyro (this r))),
    (isSet (latestMag (this r))), (isSet (latestTemp (this r)));
    try reflexivity; discriminate.
Qed.

Lemma schedule_scheduled (r : Runtime) :
  emitScheduled (this r) = true -> scheduleEmitIfReady r = r.
Proof. unfold scheduleEmitIfReady. now intros ->. Qed.

Lemma schedule_ready (r : Runtime) :
  emitScheduled (this r) = false -> ready (this r) = true ->
  scheduleEmitIfReady r
  = queueMicrotask EmitPacket (withThis r (setEmitScheduled true (this r))).
Proof.
  unfold ready, scheduleEmitIfReady. intros -> H.
  destruct (isSet (latestAccel (this r))), (isSet (latestGyro (this r))),
    (isSet (latestMag (this r))), (isSet (latestTemp (this r)));
    try discriminate; reflexivity.
Qed.

(** What an accepted notification leaves: the mandatory slots set, the
    time slot finite or [null], one callback pending, nothing emitted. *)
Lemma notify_accepted (r : Runtime) (dv : DataView) :
  quiescent r \/ pending r ->
  accepted dv = true ->
  pending (notify r dv)
  /\ emitted (notify r dv) = emitted r
  /\ timeSlotFinite (this (notify r dv))
  /\ (forall v, getFloat32 dv 76 = Some v ->
                latestTimeSec (this (notify r dv))
                = if isFinite v then Some v else None).
Proof.
  intros S A. unfold accepted in A. apply Nat.leb_le in A.
  destruct (readValues_long dv 20 0) as (vs & E & _); [lia|].
  pose proof (readValues_nth dv 20 0 19 vs E ltac:(lia)) as T.
  change ((0 + 19) * 4)%nat with 76%nat in T.
  unfold notify, onPacket. rewrite E. cbn [snd].
  set (r1 := withThis r _).
  assert (R1 : ready (this r1) = true) by reflexivity.
  assert (F1 : emitScheduled (this r1) = emitScheduled (this r))
    by reflexivity.
  assert (Q1 : microtasks r1 = microtasks r) by reflexivity.
  assert (L1 : latestTimeSec (this r1)
               = if isFinite (at_ vs 19) then Some (at_ vs 19) else None)
    by reflexivity.
  assert (Tm : forall r2, latestTimeSec (this r2) = latestTimeSec (this r1) ->
               timeSlotFinite (this r2)
               /\ (forall v, getFloat32 dv 76 = Some v ->
                             latestTimeSec (this r2)
                             = if isFinite v then Some v else None)).
  { intros r2 H. split.
    - unfold timeSlotFinite. rewrite H, L1.
      destruct (isFinite (at_ vs 19)) eqn:Fi; [exact Fi | exact I].
    - intros v G. rewrite H, L1. rewrite T in G. now injection G as <-. }
  destruct S as [[Q F] | (Q & F & _)].
  - rewrite schedule_ready by (rewrite ?F1; assumption).
    repeat split; try reflexivity.
    + change (microtasks r ++ [EmitPacket] = [EmitPacket]).
      rewrite Q. reflexivity.
    + apply Tm. reflexivity.
    + apply Tm. reflexivity.
  - rewrite schedule_scheduled by (rewrite F1; assumption).
    repeat split; try reflexivity.
    + rewrite Q1. exact Q.
    + rewrite F1. exact F.
    + apply Tm. reflexivity.
    + apply Tm. reflexivity.
Qed.

Lemma notify_rejected (r : Runtime) (dv : DataView) :
  accepted dv = false -> notify r dv = r.
Proof.
  intros A. unfold accepted in A. apply Nat.leb_gt in A.
  unfold notify. rewrite onPacket_short by exact A. reflexivity.
Qed.

(** A batch of notifications emits nothing by itself; it leaves one callback
    pending when some buffer was accepted, and changes nothing otherwise. *)
Lemma batch_state (dvs : list DataView) (r : Runtime) :
  quiescent r \/ pending r ->
  emitted (fold_left notify dvs r) = emitted r
  /\ (if existsb accepted dvs then pending (fold_left notify dvs r)
      else fold_left notify dvs r = r)
  /\ (timeSlotFinite (this r) ->
      timeSlotFinite (this (fold_left notify dvs r))).
Proof.
  revert r. induction dvs as [|dv dvs IH]; intros r S.
  - split; [|split]; [reflexivity | reflexivity | auto].
  - cbn [fold_left existsb].
    destruct (accepted dv) eqn:A.
    + destruct (notify_accepted r dv S A) as (P & E & T & _).
      destruct (IH (notify r dv) (or_intror P)) as (E' & C & T').
      cbn [orb]. split; [|split].
      * now rewrite E'.
      * destruct (existsb accepted dvs); [exact C | now rewrite C].
      * intros _. apply T', T.
    + rewrite (notify_rejected r dv A). cbn [orb]. apply IH, S.
Qed.

Lemma drain_quiescent (r : Runtime) : quiescent r -> drain r = r.
Proof.
  intros [Q _]. unfold drain. rewrite Q. destruct r as [m q e].
  cbn in *. now subst q.
Qed.

(** The checkpoint after a batch that left a callback pending emits one
    sample, built from the slots as they are then. *)
Lemma drain_pending (r : Runtime) :
  pending r ->
  quiescent (drain r)
  /\ latestTimeSec (this (drain r)) = latestTimeSec (this r)
  /\ exists p : Packet,
       emitted (drain r) = emitted r ++ [Data p]
       /\ complete p = true
       /\ t p = match latestTimeSec (this r) with
                | Some v => v
                | None => Fin 0
                end.
Proof.
  intros (Q & F & R). unfold drain. rewrite Q.
  cbn [runAll runMicrotask]. unfold emitPacket.
  repeat split. eexists. repeat split. exact R.
Qed.

End Scheduling.

(** ** Whole runs *)

Section Runs.

Import WebBLE Conditions.

(** A turn of notifications run from a quiet state ends quiet and emits one
    sample if some buffer was accepted, none otherwise. *)
Lemma turn_updates (r : Runtime) (dvs : list DataView) :
  quiescent r -> timeSlotFinite (this r) ->
  quiescent (runTurn r (Updates dvs))
  /\ timeSlotFinite (this (runTurn r (Updates dvs)))
  /\ exists new : list event,
       emitted (runTurn r (Updates dvs)) = emitted r ++ new
       /\ if existsb accepted dvs
          then exists p, new = [Data p] /\ sampleOk p
          else new = [].
Proof.
  intros Q T. unfold runTurn.
  destruct (batch_state dvs r (or_introl Q)) as (E & C & T').
  specialize (T' T).
  destruct (existsb accepted dvs).
  - destruct (drain_pending _ C) as (Q' & L & p & Ep & Cp & Tp).
    split; [exact Q'|]. split.
    + unfold timeSlotFinite in *. now rewrite L.
    + exists [Data p]. rewrite Ep, E. split; [reflexivity|].
      exists p. split; [reflexivity|]. split; [exact Cp|].
      rewrite Tp. unfold timeSlotFinite in T'.
      destruct (latestTimeSec (this (fold_left notify dvs r)));
        [exact T' | reflexivity].
  - rewrite C, (drain_quiescent r Q).
    split; [exact Q|]. split; [exact T|].
    exists []. now rewrite app_nil_r.
Qed.

Lemma turn_settled (r : Runtime) (tn : turn) :
  settled r -> settled (runTurn r tn).
Proof.
  intros (Q & T & F). destruct tn as [dvs | | control].
  - destruct (turn_updates r dvs Q T) as (Q' & T' & new & E & N).
    split; [exact Q'|]. split; [exact T'|].
    rewrite E, samples_app. apply Forall_app. split; [exact F|].
    destruct (existsb accepted dvs).
    + destruct N as (p & -> & O). cbn [samples]. now constructor.
    + subst new. constructor.
  - assert (Q' : quiescent (handleDisconnect r)).
    { destruct Q as [Qm _]. split; [exact Qm | reflexivity]. }
    unfold runTurn. rewrite (drain_quiescent _ Q').
    split; [exact Q'|]. split; [exact T|].
    unfold handleDisconnect, emit. cbn [emitted withThis].
    rewrite samples_app. cbn [samples]. now rewrite app_nil_r.
  - assert (Q' : quiescent (connectOk control r)).
    { unfold connectOk. destruct (server (this r)); [exact Q|].
      destruct Q as [Qm Qf]. split; [exact Qm | exact Qf]. }
    unfold runTurn. rewrite (drain_quiescent _ Q').
    unfold connectOk in *. destruct (server (this r)).
    + split; [exact Q|]. split; [exact T | exact F].
    + split; [exact Q'|]. split; [exact T|].
      unfold emit. cbn [emitted withThis].
      rewrite samples_app. cbn [samples]. now rewrite app_nil_r.
Qed.

Lemma run_settled (ts : list turn) (r : Runtime) :
  settled r -> settled (run ts r).
Proof.
  revert r. induction ts as [|tn ts IH]; intros r S; [exact S|].
  cbn [run fold_left]. apply IH, turn_settled, S.
Qed.

Lemma fresh_settled : settled fresh.
Proof.
  split; [split; reflexivity|]. split; [exact I | constructor].
Qed.

End Runs.

(** ** What a sample is built from *)

Section Provenance.

Import WebBLE Conditions.

Lemma schedule_slots (r : Runtime) :
  slots (this (scheduleEmitIfReady r)) = slots (this r).
Proof.
  unfold scheduleEmitIfReady.
  destruct (emitScheduled (this r)); [reflexivity|].
  destruct (_ || _); reflexivity.
Qed.

(** An accepted buffer overwrites all eight slots. *)
Lemma notify_accepted_slots (r1 r2 : Runtime) (dv : DataView) :
  accepted dv = true ->
  slots (this (notify r1 dv)) = slots (this (notify r2 dv)).
Proof.
  intros A. unfold accepted in A. apply Nat.leb_le in A.
  destruct (readValues_long dv 20 0) as (vs & E & _); [lia|].
  unfold notify, onPacket. rewrite E. cbn [snd].
  rewrite !schedule_slots. reflexivity.
Qed.

Lemma batch_slots (dvs : list DataView) (r1 r2 : Runtime) :
  slots (this r1) = slots (this r2) \/ existsb accepted dvs = true ->
  slots (this (fold_left notify dvs r1))
  = slots (this (fold_left notify dvs r2)).
Proof.
  revert r1 r2. induction dvs as [|dv dvs IH]; intros r1 r2 H.
  - destruct H as [H | H]; [exact H | discriminate].
  - cbn [fold_left]. apply IH.
    destruct (accepted dv) eqn:A.
    + left. now apply notify_accepted_slots.
    + rewrite !notify_rejected by exact A.
      cbn [existsb] in H. rewrite A in H. exact H.
Qed.

Lemma drain_pending_same (r1 r2 : Runtime) :
  pending r1 -> pending r2 -> slots (this r1) = slots (this r2) ->
  exists p : Packet,
    emitted (drain r1) = emitted r1 ++ [Data p]
    /\ emitted (drain r2) = emitted r2 ++ [Data p].
Proof.
  intros (Q1 & _) (Q2 & _) S. unfold drain. rewrite Q1, Q2.
  cbn [runAll runMicrotask]. unfold emitPacket, emit.
  cbn [emitted withThis this setEmitScheduled latestAccel latestGyro
       latestMag latestGyroInt latestFusion latestFusionMag latestTemp
       latestTimeSec].
  unfold slots in S. injection S as -> -> -> -> -> -> -> ->.
  eexists. split; reflexivity.
Qed.

(** The sample a turn emits is built from the buffers of that turn alone:
    whatever the slots held before, the time slot that [handleDisconnect]
    leaves behind included, none of it reaches a sample. *)
Lemma turn_sample_from_its_buffers (r1 r2 : Runtime) (dvs : list DataView) :
  quiescent r1 -> quiescent r2 ->
  exists new : list event,
    emitted (runTurn r1 (Updates dvs)) = emitted r1 ++ new
    /\ emitted (runTurn r2 (Updates dvs)) = emitted r2 ++ new.
Proof.
  intros Q1 Q2. unfold runTurn.
  destruct (batch_state dvs r1 (or_introl Q1)) as (E1 & C1 & _).
  destruct (batch_state dvs r2 (or_introl Q2)) as (E2 & C2 & _).
  destruct (existsb accepted dvs) eqn:A.
  - destruct (drain_pending_same _ _ C1 C2) as (p & P1 & P2).
    + apply batch_slots. now right.
    + exists [Data p]. rewrite P1, P2, E1, E2. split; reflexivity.
  - rewrite C1, C2, (drain_quiescent r1 Q1), (drain_quiescent r2 Q2).
    exists []. rewrite !app_nil_r. split; reflexivity.
Qed.

End Provenance.

(** C1, as the code has it: a notification buffer shorter than 80 bytes makes
    the first read past its end raise a RangeError before any field is
    assigned, so nothing is scheduled or emitted and no slot or connection
    field changes.  A buffer longer than 80 bytes is not rejected: the
    listener completes normally and handles it exactly as it handles its
    first 80 bytes, setting the slots and leaving a sample pending. *)
Theorem packet_length_handling :
  (forall (dv : DataView) (r : WebBLE.Runtime),
      (length dv < 80)%nat ->
      WebBLE.onPacket dv r = (WebBLE.RangeError, r)
      /\ WebBLE.notify r dv = r)
  /\ (forall (dv : DataView) (r : WebBLE.Runtime),
         (80 < length dv)%nat ->
         WebBLE.onPacket dv r = WebBLE.onPacket (firstn 80 dv) r
         /\ fst (WebBLE.onPacket dv r) = WebBLE.Normal
         /\ Conditions.ready (WebBLE.this (snd (WebBLE.onPacket dv r))) = true
         /\ (Conditions.quiescent r ->
             Conditions.pending (snd (WebBLE.onPacket dv r)))).
Proof.
  split.
  - intros dv r H. split.
    + now apply onPacket_short.
    + unfold WebBLE.notify. now rewrite onPacket_short.
  - intros dv r H. split; [apply onPacket_firstn; lia|].
    assert (A : Conditions.accepted dv = true)
      by (apply Nat.leb_le; lia).
    split; [|split].
    + unfold WebBLE.onPacket.
      destruct (readValues_long dv 20 0) as (vs & E & _); [lia|].
      now rewrite E.
    + unfold WebBLE.onPacket.
      destruct (readValues_long dv 20 0) as (vs & E & _); [lia|].
      rewrite E. cbn [snd].
      set (r1 := WebBLE.withThis r _).
      assert (R1 : Conditions.ready (WebBLE.this r1) = true) by reflexivity.
      destruct (WebBLE.emitScheduled (WebBLE.this r1)) eqn:F.
      * now rewrite schedule_scheduled.
      * now rewrite schedule_ready.
    + intros Q.
      exact (proj1 (notify_accepted r dv (or_introl Q) A)).
Qed.

Lemma packet_length_handling_witness :
  WebBLE.onPacket (Fixtures.buffer [] 0) WebBLE.fresh
  = (WebBLE.RangeError, WebBLE.fresh)
  /\ WebBLE.onPacket (Fixtures.buffer Fixtures.f32_1_5 4) WebBLE.fresh
     = WebBLE.onPacket (firstn 80 (Fixtures.buffer Fixtures.f32_1_5 4))
                       WebBLE.fresh.
Proof.
  split.
  - apply (proj1 packet_length_handling (Fixtures.buffer [] 0) WebBLE.fresh).
    cbn. lia.
  - apply (proj2 packet_length_handling (Fixtures.buffer Fixtures.f32_1_5 4)
                 WebBLE.fresh).
    cbn. lia.
Defined.

(** C1, as the specification words it, fails on an 84-byte buffer: its length
    is not 80, yet the listener completes normally, overwrites the slots and
    the turn emits a sample. *)
Lemma long_packet_is_decoded :
  length (Fixtures.buffer Fixtures.f32_1_5 4) = 84%nat
  /\ fst (WebBLE.onPacket (Fixtures.buffer Fixtures.f32_1_5 4) WebBLE.fresh)
     = WebBLE.Normal
  /\ WebBLE.latestTimeSec
       (WebBLE.this
          (snd (WebBLE.onPacket (Fixtures.buffer Fixtures.f32_1_5 4)
                                WebBLE.fresh)))
     = Some (Fin (3 # 2))
  /\ WebBLE.latestTemp
       (WebBLE.this
          (snd (WebBLE.onPacket (Fixtures.buffer Fixtures.f32_1_5 4)
                                WebBLE.fresh)))
     = Some (Fin 0)
  /\ length
       (WebBLE.samples
          (WebBLE.emitted
             (WebBLE.runTurn WebBLE.fresh
                (WebBLE.Updates [Fixtures.buffer Fixtures.f32_1_5 4]))))
     = 1%nat.
Proof. vm_compute. repeat split. Qed.

(** C2, on the code: [handleDisconnect] clears the pending flag and seven of
    the eight slots before it emits [disconnected], but it leaves
    [latestTimeSec] as it was; after a packet carrying device time 1.5 and a
    disconnect, the device-time slot still holds 1.5. *)
Theorem disconnect_keeps_device_time :
  (forall r : WebBLE.Runtime,
      WebBLE.latestAccel (WebBLE.this (WebBLE.handleDisconnect r)) = None
      /\ WebBLE.latestGyro (WebBLE.this (WebBLE.handleDisconnect r)) = None
      /\ WebBLE.latestMag (WebBLE.this (WebBLE.handleDisconnect r)) = None
      /\ WebBLE.latestGyroInt (WebBLE.this (WebBLE.handleDisconnect r)) = None
      /\ WebBLE.latestFusion (WebBLE.this (WebBLE.handleDisconnect r)) = None
      /\ WebBLE.latestFusionMag (WebBLE.this (WebBLE.handleDisconnect r))
         = None
      /\ WebBLE.latestTemp (WebBLE.this (WebBLE.handleDisconnect r)) = None
      /\ WebBLE.emitScheduled (WebBLE.this (WebBLE.handleDisconnect r))
         = false
      /\ WebBLE.emitted (WebBLE.handleDisconnect r)
         = WebBLE.emitted r ++ [WebBLE.Disconnected]
      /\ WebBLE.latestTimeSec (WebBLE.this (WebBLE.handleDisconnect r))
         = WebBLE.latestTimeSec (WebBLE.this r))
  /\ WebBLE.latestTimeSec
       (WebBLE.this
          (WebBLE.run
             [WebBLE.ConnectOk true;
              WebBLE.Updates [Fixtures.buffer Fixtures.f32_1_5 0];
              WebBLE.GattDisconnected]
             WebBLE.fresh))
     = Some (Fin (3 # 2)).
Proof.
  split.
  - intros r. repeat split.
  - vm_compute. reflexivity.
Qed.

(** C5: [scheduleEmitIfReady] schedules nothing while one of the accel, gyro,
    mag and temperature slots is unset; every sample ever emitted has these
    four fields set; and a turn made of any number of notifications emits at
    most one sample: exactly one if some buffer was accepted, none
    otherwise.  Five packets in one turn give one sample. *)
Theorem one_sample_per_turn :
  (forall r : WebBLE.Runtime,
      Conditions.ready (WebBLE.this r) = false ->
      WebBLE.scheduleEmitIfReady r = r)
  /\ (forall (ts : list WebBLE.turn) (p : WebBLE.Packet),
         In p (WebBLE.samples (WebBLE.emitted (WebBLE.run ts WebBLE.fresh))) ->
         Conditions.complete p = true)
  /\ (forall (ts : list WebBLE.turn) (dvs : list DataView),
         exists new : list WebBLE.Packet,
           WebBLE.samples
             (WebBLE.emitted
                (WebBLE.runTurn (WebBLE.run ts WebBLE.fresh)
                                (WebBLE.Updates dvs)))
           = WebBLE.samples (WebBLE.emitted (WebBLE.run ts WebBLE.fresh))
             ++ new
           /\ (length new <= 1)%nat
           /\ length new
              = if existsb Conditions.accepted dvs then 1%nat else 0%nat)
  /\ length
       (WebBLE.samples
          (WebBLE.emitted
             (WebBLE.runTurn WebBLE.fresh
                (WebBLE.Updates
                   (repeat (Fixtures.buffer Fixtures.f32_1_5 0) 5)))))
     = 1%nat.
Proof.
  split; [exact schedule_not_ready|]. split; [|split].
  - intros ts p H.
    destruct (run_settled ts WebBLE.fresh fresh_settled) as (_ & _ & F).
    rewrite Forall_forall in F. exact (proj1 (F p H)).
  - intros ts dvs.
    destruct (run_settled ts WebBLE.fresh fresh_settled) as (Q & T & _).
    destruct (turn_updates _ dvs Q T) as (_ & _ & new & E & N).
    exists (WebBLE.samples new). rewrite E, samples_app.
    split; [reflexivity|].
    destruct (existsb Conditions.accepted dvs).
    + destruct N as (p & -> & _). cbn. lia.
    + subst new. cbn. lia.
  - vm_compute. reflexivity.
Qed.

Lemma one_sample_per_turn_witness :
  WebBLE.scheduleEmitIfReady WebBLE.fresh = WebBLE.fresh.
Proof.
  exact (proj1 one_sample_per_turn WebBLE.fresh eq_refl).
Defined.

(** C10: every sample the manager emits carries a finite device time; when
    the float at index 19 of an accepted buffer is not finite, the time slot
    is set to [null] and the sample emitted for that turn has [t = 0]. *)
Theorem emitted_time_finite :
  (forall (ts : list WebBLE.turn) (p : WebBLE.Packet),
      In p (WebBLE.samples (WebBLE.emitted (WebBLE.run ts WebBLE.fresh))) ->
      isFinite (WebBLE.t p) = true)
  /\ (forall (ts : list WebBLE.turn) (dv : DataView) (v : number),
         (80 <= length dv)%nat ->
         getFloat32 dv 76 = Some v ->
         isFinite v = false ->
         WebBLE.latestTimeSec
           (WebBLE.this
              (WebBLE.runTurn (WebBLE.run ts WebBLE.fresh)
                              (WebBLE.Updates [dv])))
         = None
         /\ exists p : WebBLE.Packet,
             WebBLE.emitted
               (WebBLE.runTurn (WebBLE.run ts WebBLE.fresh)
                               (WebBLE.Updates [dv]))
             = WebBLE.emitted (WebBLE.run ts WebBLE.fresh)
               ++ [WebBLE.Data p]
             /\ WebBLE.t p = Fin 0).
Proof.
  split.
  - intros ts p H.
    destruct (run_settled ts WebBLE.fresh fresh_settled) as (_ & _ & F).
    rewrite Forall_forall in F. exact (proj2 (F p H)).
  - intros ts dv v L G N.
    destruct (run_settled ts WebBLE.fresh fresh_settled) as (Q & _ & _).
    set (r := WebBLE.run ts WebBLE.fresh) in *.
    assert (A : Conditions.accepted dv = true) by (apply Nat.leb_le; lia).
    destruct (notify_accepted r dv (or_introl Q) A) as (P & E & _ & S).
    specialize (S v G). rewrite N in S.
    destruct (drain_pending _ P) as (_ & K & p & Ep & _ & Tp).
    change (WebBLE.runTurn r (WebBLE.Updates [dv]))
      with (WebBLE.drain (WebBLE.notify r dv)).
    split; [now rewrite K|].
    exists p. rewrite Ep, E. split; [reflexivity|].
    rewrite Tp, S. reflexivity.
Qed.

Lemma emitted_time_finite_witness :
  WebBLE.latestTimeSec
    (WebBLE.this
       (WebBLE.runTurn (WebBLE.run [] WebBLE.fresh)
                       (WebBLE.Updates [Fixtures.buffer Fixtures.f32_nan 0])))
  = None.
Proof.
  refine (proj1 (proj2 emitted_time_finite []
                       (Fixtures.buffer Fixtures.f32_nan 0) NaN _ _ _)).
  - cbn. lia.
  - reflexivity.
  - reflexivity.
Defined.

(** ** Decoding examples *)

Example getFloat32_one_and_half :
  getFloat32 Fixtures.f32_1_5 0 = Some (Fin (3 # 2)).
Proof. reflexivity. Qed.

Example getFloat32_nan : getFloat32 Fixtures.f32_nan 0 = Some NaN.
Proof. reflexivity. Qed.

Example getFloat32_minus_infinity :
  getFloat32 [x00; x00; x80; xff] 0 = Some NegInf.
Proof. reflexivity. Qed.

Example getFloat32_smallest_subnormal :
  getFloat32 [x01; x00; x00; x00] 0
  = Some (Fin (1 # Z.to_pos (2 ^ 149))).
Proof. reflexivity. Qed.

Example getFloat32_past_the_end : getFloat32 [x00; x00; xc0] 0 = None.
Proof. reflexivity. Qed.

Example remainder_keeps_sign : rem (Fin (-10)) (Fin 360) = Fin (-10).
Proof. reflexivity. Qed.

Example getFloat32_minus_two_and_half :
  getFloat32 [x00; x00; x20; xc0] 0 = Some (Fin (-5 # 2)).
Proof. reflexivity. Qed.

Example normalize180_of_nan : App.normalize180 NaN = NaN.
Proof. reflexivity. Qed.

(** A large input: [2 ^ 100 + 180] rounds to [2 ^ 100], whose remainder by
    360 is 16. *)
Example normalize180_of_2_to_100 : App.normalize180 (Fin (2 ^ 100)) = Fin (-164).
Proof. vm_compute. reflexivity. Qed.

(** * Further properties of the code *)

(** ** The sample of a turn *)

Section TurnSample.

Import WebBLE Conditions.

Lemma field_at (dv : DataView) (vs : list number) (k : nat) :
  readValues dv 20 0 = Some vs -> (k < 20)%nat ->
  at_ vs k = Layout.field dv k.
Proof.
  intros E K. unfold Layout.field.
  pose proof (readValues_nth dv 20 0 k vs E K) as G.
  cbn [Nat.add] in G. now rewrite G.
Qed.

(** The slots after an accepted buffer, by offsets. *)
Lemma notify_accepted_layout (r : Runtime) (dv : DataView) :
  accepted dv = true ->
  slots (this (notify r dv))
  = (Some (Layout.vec dv 0), Some (Layout.vec dv 3), Some (Layout.vec dv 6),
     Some (Layout.angles dv 9), Some (Layout.angles dv 12),
     Some (Layout.angles dv 15), Some (Layout.field dv 18),
     if isFinite (Layout.field dv 19) then Some (Layout.field dv 19)
     else None).
Proof.
  intros A. unfold accepted in A. apply Nat.leb_le in A.
  destruct (readValues_long dv 20 0) as (vs & E & _); [lia|].
  unfold notify, onPacket. rewrite E. cbn [snd].
  rewrite schedule_slots. unfold slots, Layout.vec, Layout.angles.
  cbn [this withThis latestAccel latestGyro latestMag latestGyroInt
       latestFusion latestFusionMag latestTemp latestTimeSec Nat.add].
  rewrite !(field_at dv vs _ E) by lia. reflexivity.
Qed.

Lemma drain_pending_packet (r : Runtime) a g m gi f fm tp ts :
  pending r ->
  slots (this r) = (a, g, m, gi, f, fm, tp, ts) ->
  emitted (drain r)
  = emitted r
    ++ [Data {| accel := a; gyro := g; mag := m; gyroInt := gi;
                fusion := f; fusionMag := fm; temperature := tp;
                t := match ts with Some v => v | None => Fin 0 end |}].
Proof.
  intros (Q & _) S. unfold drain. rewrite Q.
  cbn [runAll runMicrotask]. unfold emitPacket, emit.
  cbn [emitted withThis this setEmitScheduled latestAccel latestGyro
       latestMag latestGyroInt latestFusion latestFusionMag latestTemp
       latestTimeSec].
  unfold slots in S. injection S as -> -> -> -> -> -> -> ->.
  reflexivity.
Qed.

Lemma batch_all_rejected (dvs : list DataView) (r : Runtime) :
  forallb (fun b => negb (accepted b)) dvs = true ->
  fold_left notify dvs r = r.
Proof.
  revert r. induction dvs as [|dv dvs IH]; intros r H; [reflexivity|].
  cbn [forallb] in H. apply andb_true_iff in H as [H1 H2].
  cbn [fold_left]. rewrite notify_rejected by now apply negb_true_iff.
  now apply IH.
Qed.

Lemma batch_quiet_or_pending (dvs : list DataView) (r : Runtime) :
  quiescent r \/ pending r ->
  (quiescent (fold_left notify dvs r) \/ pending (fold_left notify dvs r))
  /\ emitted (fold_left notify dvs r) = emitted r.
Proof.
  intros S. destruct (batch_state dvs r S) as (E & C & _).
  split; [|exact E].
  destruct (existsb accepted dvs); [now right | now rewrite C].
Qed.

End TurnSample.

(** The sample of a turn is read off its last accepted buffer. *)
Lemma turn_emits_layout
      (r : WebBLE.Runtime) (dvs rest : list DataView) (dv : DataView) :
  Conditions.quiescent r ->
  Conditions.accepted dv = true ->
  forallb (fun b => negb (Conditions.accepted b)) rest = true ->
  WebBLE.emitted (WebBLE.runTurn r (WebBLE.Updates (dvs ++ dv :: rest)))
  = WebBLE.emitted r ++ [WebBLE.Data (Layout.sample dv)].
Proof.
  intros Q A R. unfold WebBLE.runTurn.
  rewrite fold_left_app. cbn [fold_left].
  rewrite batch_all_rejected by exact R.
  destruct (batch_quiet_or_pending dvs r (or_introl Q)) as (S0 & E0).
  destruct (notify_accepted _ dv S0 A) as (P & E & _ & _).
  rewrite (drain_pending_packet _ _ _ _ _ _ _ _ _ P
             (notify_accepted_layout _ dv A)).
  rewrite E, E0. unfold Layout.sample.
  destruct (isFinite (Layout.field dv 19)); reflexivity.
Qed.

(** X1.  Coalescing keeps the last accepted buffer: whatever was notified
    before it in the turn, and whatever rejected buffers follow, the turn
    emits exactly one sample, and that sample is the one read off the
    offsets of the last accepted buffer. *)
Theorem last_accepted_buffer_wins
        (r : WebBLE.Runtime) (dvs rest : list DataView) (dv : DataView) :
  Conditions.quiescent r ->
  Conditions.accepted dv = true ->
  forallb (fun b => negb (Conditions.accepted b)) rest = true ->
  WebBLE.emitted (WebBLE.runTurn r (WebBLE.Updates (dvs ++ dv :: rest)))
  = WebBLE.emitted r ++ [WebBLE.Data (Layout.sample dv)].
Proof. exact (turn_emits_layout r dvs rest dv). Qed.

Lemma last_accepted_buffer_wins_witness :
  WebBLE.emitted
    (WebBLE.runTurn WebBLE.fresh
       (WebBLE.Updates
          ([Fixtures.buffer Fixtures.f32_nan 0]
             ++ Fixtures.buffer Fixtures.f32_1_5 3 :: [[x01; x02]])))
  = WebBLE.emitted WebBLE.fresh
    ++ [WebBLE.Data (Layout.sample (Fixtures.buffer Fixtures.f32_1_5 3))].
Proof.
  apply (last_accepted_buffer_wins WebBLE.fresh
           [Fixtures.buffer Fixtures.f32_nan 0] [[x01; x02]]
           (Fixtures.buffer Fixtures.f32_1_5 3)).
  - split; reflexivity.
  - reflexivity.
  - reflexivity.
Defined.

(** ** Samples over a whole run *)

Section SampleCount.

Import WebBLE Conditions.

Lemma turn_samples (r : Runtime) (tn : turn) :
  settled r ->
  length (samples (emitted (runTurn r tn)))
  = (length (samples (emitted r))
     + if Counting.accepting tn then 1 else 0)%nat.
Proof.
  intros (Q & T & _). destruct tn as [dvs | | control].
  - destruct (turn_updates r dvs Q T) as (_ & _ & new & E & N).
    rewrite E, samples_app, length_app. cbn [Counting.accepting].
    destruct (existsb accepted dvs).
    + destruct N as (p & -> & _). reflexivity.
    + subst new. reflexivity.
  - assert (Q' : quiescent (handleDisconnect r)).
    { destruct Q as [Qm _]. split; [exact Qm | reflexivity]. }
    unfold runTurn. rewrite (drain_quiescent _ Q').
    unfold handleDisconnect, emit. cbn [emitted withThis Counting.accepting].
    rewrite samples_app, length_app. cbn [samples length]. lia.
  - assert (Q' : quiescent (connectOk control r)).
    { unfold connectOk. destruct (server (this r)); [exact Q|].
      destruct Q as [Qm Qf]. split; [exact Qm | exact Qf]. }
    unfold runTurn. rewrite (drain_quiescent _ Q').
    unfold connectOk. cbn [Counting.accepting].
    destruct (server (this r)); [lia|].
    unfold emit. cbn [emitted withThis].
    rewrite samples_app, length_app. cbn [samples length]. lia.
Qed.

Lemma run_samples (ts : list turn) (r : Runtime) :
  settled r ->
  length (samples (emitted (run ts r)))
  = (length (samples (emitted r))
     + length (filter Counting.accepting ts))%nat.
Proof.
  revert r. induction ts as [|tn ts IH]; intros r S.
  - cbn. lia.
  - cbn [run fold_left filter].
    change (fold_left runTurn ts (runTurn r tn)) with (run ts (runTurn r tn)).
    rewrite (IH _ (turn_settled r tn S)), (turn_samples r tn S).
    destruct (Counting.accepting tn); cbn [length]; lia.
Qed.

End SampleCount.

(** X2.  Over any run of a new manager the number of samples emitted is the
    number of turns in which at least one buffer was accepted: a connect, a
    disconnect or a turn of rejected buffers emits none, and no turn emits
    two. *)
Theorem samples_count_accepting_turns (ts : list WebBLE.turn) :
  length (WebBLE.samples (WebBLE.emitted (WebBLE.run ts WebBLE.fresh)))
  = length (filter Counting.accepting ts).
Proof.
  rewrite (run_samples ts WebBLE.fresh fresh_settled). reflexivity.
Qed.

(** ** Commands *)

Section CommandFacts.

Import WebBLE Conditions Commands.

Lemma turn_keeps_control_off (r : Runtime) (dvs : list DataView) :
  quiescent r -> controlChar (this r) = false ->
  quiescent (runTurn r (Updates dvs))
  /\ controlChar (this (runTurn r (Updates dvs))) = false.
Proof.
  intros Q C.
  assert (N : forall r0 dv, controlChar (this (notify r0 dv))
                            = controlChar (this r0)).
  { intros r0 dv. unfold notify, onPacket.
    destruct (readValues dv 20 0); [|reflexivity]. cbn [snd].
    unfold scheduleEmitIfReady.
    destruct (emitScheduled _); [reflexivity|].
    destruct (_ || _); reflexivity. }
  assert (F : forall l r0, controlChar (this (fold_left notify l r0))
                           = controlChar (this r0)).
  { induction l as [|dv l IH]; intros r0; [reflexivity|].
    cbn [fold_left]. now rewrite IH, N. }
  unfold runTurn.
  destruct (batch_state dvs r (or_introl Q)) as (_ & S & _).
  destruct (existsb accepted dvs).
  - destruct (drain_pending _ S) as (Q' & _). split; [exact Q'|].
    destruct S as (Qm & _). unfold drain. rewrite Qm.
    cbn [runAll runMicrotask]. unfold emitPacket, emit.
    cbn [this withThis setEmitScheduled controlChar].
    now rewrite F.
  - rewrite S, (drain_quiescent r Q). split; assumption.
Qed.

End CommandFacts.

(** X3.  A command never disturbs the telemetry: [sendCommand] leaves every
    field of the manager and the microtask queue as they were and emits no
    sample; it makes at most one write, of the command followed by a
    newline; it emits exactly one error when the control characteristic is
    missing, offers no write method or rejects the write, and nothing
    otherwise. *)
Theorem sendCommand_isolated
        (command : list byte) (ch : Commands.characteristic)
        (r : WebBLE.Runtime) :
  WebBLE.this (snd (Commands.sendCommand command ch r)) = WebBLE.this r
  /\ WebBLE.microtasks (snd (Commands.sendCommand command ch r))
     = WebBLE.microtasks r
  /\ WebBLE.samples (WebBLE.emitted (snd (Commands.sendCommand command ch r)))
     = WebBLE.samples (WebBLE.emitted r)
  /\ (length (fst (Commands.sendCommand command ch r)) <= 1)%nat
  /\ (forall w, In w (fst (Commands.sendCommand command ch r)) ->
                w = Commands.WithoutResponse (command ++ [x0a])
                \/ w = Commands.WithResponse (command ++ [x0a]))
  /\ WebBLE.emitted (snd (Commands.sendCommand command ch r))
     = WebBLE.emitted r
       ++ (if WebBLE.controlChar (WebBLE.this r)
           then match Commands.writeValueWithoutResponse ch,
                      Commands.writeValue ch with
                | Some true, _ | None, Some true => []
                | _, _ => [WebBLE.Error]
                end
           else [WebBLE.Error])
  /\ (WebBLE.controlChar (WebBLE.this r) = false ->
      fst (Commands.sendCommand command ch r) = []).
Proof.
  unfold Commands.sendCommand, Commands.encode.
  destruct (WebBLE.controlChar (WebBLE.this r)); cbn [negb].
  - destruct (Commands.writeValueWithoutResponse ch) as [[|]|];
      [| |destruct (Commands.writeValue ch) as [[|]|]];
      cbn [fst snd WebBLE.emit WebBLE.this WebBLE.microtasks WebBLE.emitted
           length In];
      rewrite ?samples_app, ?app_nil_r;
      repeat split; try reflexivity; try lia; try discriminate;
      intros w [<- | []]; auto.
  - cbn [fst snd WebBLE.emit WebBLE.this WebBLE.microtasks WebBLE.emitted
         length In].
    rewrite samples_app, app_nil_r.
    repeat split; try reflexivity; lia.
Qed.

(** X4.  Once the link has dropped, commands fail until the next connect:
    after a disconnect, followed by any turns of notifications, [sendCommand]
    writes nothing and emits one error. *)
Theorem command_after_disconnect_fails
        (ts : list WebBLE.turn) (us : list (list DataView))
        (command : list byte) (ch : Commands.characteristic) :
  fst (Commands.sendCommand command ch
         (WebBLE.run (ts ++ WebBLE.GattDisconnected :: map WebBLE.Updates us)
                     WebBLE.fresh)) = []
  /\ WebBLE.emitted
       (snd (Commands.sendCommand command ch
               (WebBLE.run
                  (ts ++ WebBLE.GattDisconnected :: map WebBLE.Updates us)
                  WebBLE.fresh)))
     = WebBLE.emitted
         (WebBLE.run (ts ++ WebBLE.GattDisconnected :: map WebBLE.Updates us)
                     WebBLE.fresh)
       ++ [WebBLE.Error].
Proof.
  unfold WebBLE.run. rewrite fold_left_app. cbn [fold_left].
  destruct (run_settled ts WebBLE.fresh fresh_settled) as (Q & _ & _).
  unfold WebBLE.run in Q.
  set (r0 := fold_left WebBLE.runTurn ts WebBLE.fresh) in *.
  assert (Q1 : Conditions.quiescent (WebBLE.runTurn r0 WebBLE.GattDisconnected)
               /\ WebBLE.controlChar
                    (WebBLE.this (WebBLE.runTurn r0 WebBLE.GattDisconnected))
                  = false).
  { assert (Q' : Conditions.quiescent (WebBLE.handleDisconnect r0)).
    { destruct Q as [Qm _]. split; [exact Qm | reflexivity]. }
    unfold WebBLE.runTurn. rewrite (drain_quiescent _ Q').
    split; [exact Q' | reflexivity]. }
  set (r1 := WebBLE.runTurn r0 WebBLE.GattDisconnected) in *.
  clearbody r1. clear Q. revert r1 Q1.
  induction us as [|dvs us IH]; intros r1 (Q1 & C1).
  - cbn [map fold_left]. unfold Commands.sendCommand. rewrite C1.
    split; reflexivity.
  - cbn [map fold_left]. apply IH.
    now apply turn_keeps_control_off.
Qed.

(** ** The listener registry *)

Section RegistryFacts.

Import EventListeners.

Lemma kind_eqb_eq (a b : kind) : kind_eqb a b = true <-> a = b.
Proof. destruct a, b; cbn; split; congruence. Qed.

Lemma emit_on (event k : kind) (cb : callback) (reg : registry) :
  emit k (on event cb reg)
  = emit k reg ++ (if kind_eqb k event then [cb] else []).
Proof.
  unfold emit, on.
  destruct (kind_eqb k event) eqn:E.
  - apply kind_eqb_eq in E. subst k.
    destruct (reg event) eqn:R.
    + now rewrite R.
    + assert (S : kind_eqb event event = true) by now apply kind_eqb_eq.
      now rewrite S.
  - destruct (reg event) eqn:R.
    + now rewrite app_nil_r.
    + rewrite E. now rewrite app_nil_r.
Qed.

End RegistryFacts.

(** X5.  [emit] calls exactly the callbacks registered for its event, in the
    order of registration and as many times as each was registered;
    callbacks of other events are not called, and an event nobody registered
    for calls nothing. *)
Theorem emit_calls_registered_in_order
        (calls : list (EventListeners.kind * EventListeners.callback))
        (k : EventListeners.kind) :
  EventListeners.emit k
    (EventListeners.register calls EventListeners.empty)
  = map snd (filter (fun c => EventListeners.kind_eqb k (fst c)) calls).
Proof.
  assert (G : forall reg,
             EventListeners.emit k (EventListeners.register calls reg)
             = EventListeners.emit k reg
               ++ map snd
                    (filter (fun c => EventListeners.kind_eqb k (fst c))
                            calls)).
  { unfold EventListeners.register.
    induction calls as [|[e cb] calls IH]; intros reg.
    - cbn. now rewrite app_nil_r.
    - cbn [fold_left filter fst snd]. rewrite IH, emit_on.
      destruct (EventListeners.kind_eqb k e); cbn [map snd];
        now rewrite <- app_assoc. }
  rewrite G. reflexivity.
Qed.

(** ** Calls on the model *)

Section ModelCalls.

Import App.

Lemma max0_sub (q a : Q) :
  Math_max (Fin 0) (sub (Fin q) (Fin a)) = fin (Qmax 0 (q - a)).
Proof.
  cbn [sub]. unfold fin at 1. cbn [Math_max lt].
  assert (R : Qred (q - a) == q - a) by apply Qred_correct.
  destruct (Qltb 0 (Qred (q - a))) eqn:C.
  - apply Qltb_lt in C. apply fin_eq. symmetry. apply Q.max_r. lra.
  - apply Qltb_ge in C. change (Fin 0) with (fin 0). apply fin_eq.
    symmetry. apply Q.max_l. lra.
Qed.

Lemma modelCalls_dispatch (m : Mode) (data : SensorData) (d : number) :
  Wiring.modelCalls (dispatch m data d) = dispatch m data d.
Proof.
  destruct m; cbn [dispatch]; try reflexivity.
  - destruct (fusion data); reflexivity.
  - destruct (fusionMag data); reflexivity.
Qed.

Lemma modelCalls_plotEuler (g : graph) (o : option Euler) :
  Wiring.modelCalls (plotEuler g o) = [].
Proof. destruct o; reflexivity. Qed.

(** The model calls of one [handleSensorData] are those of [dispatch]. *)
Lemma modelCalls_effects (app : AccelerometerApp) (data : SensorData) :
  Wiring.modelCalls (effects (handleSensorData app data))
  = if pcbModel app
    then dispatch (mode app) data
           (snd (clockTracker (prevDeviceTimeSec app) (t data)))
    else [].
Proof.
  unfold handleSensorData, clockTracker.
  destruct (pcbModel app); cbn [effects snd];
    unfold Wiring.modelCalls; rewrite !filter_app;
    fold (Wiring.modelCalls (plotEuler gyroIntGraph (gyroInt data)));
    fold (Wiring.modelCalls (plotEuler fusionGraph (fusion data)));
    fold (Wiring.modelCalls (plotEuler fusionMagGraph (fusionMag data)));
    rewrite !modelCalls_plotEuler; cbn [filter List.app];
    rewrite ?app_nil_r; [|reflexivity].
  apply modelCalls_dispatch.
Qed.

End ModelCalls.



(** X7.  One sample makes at most one call on the model, always with the
    [dt] just computed.  Without a model nothing is called, no [dt] is
    computed and the anchor is left alone.  In accel mode the call is
    [updateOrientationFromAccel]; in gyro mode it is
    [updateOrientationFromEuler] with [data.gyroInt] even when that field is
    absent (only the two fusion modes test for presence).  The mode, the
    model and the smoothing flag are never changed by a sample. *)
Theorem model_calls_per_sample
        (app : App.AccelerometerApp) (data : App.SensorData) :
  (length (Wiring.modelCalls (App.effects (App.handleSensorData app data)))
   <= 1)%nat
  /\ (forall e,
         In e (Wiring.modelCalls (App.effects (App.handleSensorData app data)))
         -> exists d, App.dt (App.handleSensorData app data) = Some d
                      /\ (e = App.UpdateOrientationFromAccel (App.accel data) d
                          \/ exists a, e = App.UpdateOrientationFromEuler a d))
  /\ (App.pcbModel app = false ->
      Wiring.modelCalls (App.effects (App.handleSensorData app data)) = []
      /\ App.dt (App.handleSensorData app data) = None
      /\ App.prevDeviceTimeSec (App.next (App.handleSensorData app data))
         = App.prevDeviceTimeSec app)
  /\ (App.pcbModel app = true -> App.mode app = App.ModeAccel ->
      exists d,
        Wiring.modelCalls (App.effects (App.handleSensorData app data))
        = [App.UpdateOrientationFromAccel (App.accel data) d])
  /\ (App.pcbModel app = true -> App.mode app = App.ModeGyro ->
      exists d,
        Wiring.modelCalls (App.effects (App.handleSensorData app data))
        = [App.UpdateOrientationFromEuler (App.gyroInt data) d])
  /\ App.mode (App.next (App.handleSensorData app data)) = App.mode app
  /\ App.pcbModel (App.next (App.handleSensorData app data))
     = App.pcbModel app
  /\ App.smoothingDisabled (App.next (App.handleSensorData app data))
     = App.smoothingDisabled app.
Proof.
  rewrite modelCalls_effects.
  assert (Fr : App.mode (App.next (App.handleSensorData app data))
               = App.mode app
               /\ App.pcbModel (App.next (App.handleSensorData app data))
                  = App.pcbModel app
               /\ App.smoothingDisabled
                    (App.next (App.handleSensorData app data))
                  = App.smoothingDisabled app).
  { unfold App.handleSensorData, App.clockTracker.
    destruct (App.pcbModel app); repeat split. }
  destruct (App.pcbModel app) eqn:M.
  - destruct (handleSensorData_clock app data M) as (D & _ & _).
    rewrite D.
    set (d := snd (App.clockTracker _ _)).
    split; [|split; [|split; [|split; [|split]]]]; try exact Fr.
    + destruct (App.mode app); cbn [App.dispatch];
        try destruct (App.fusion data); try destruct (App.fusionMag data);
        cbn [length]; lia.
    + intros e H. exists d. split; [reflexivity|].
      destruct (App.mode app); cbn [App.dispatch] in H;
        try destruct (App.fusion data); try destruct (App.fusionMag data);
        cbn [In] in H; try contradiction; destruct H as [<- | []]; eauto.
    + discriminate.
    + intros _ ->. exists d. reflexivity.
    + intros _ ->. exists d. reflexivity.
  - split; [|split; [|split; [|split; [|split]]]]; try exact Fr;
      try discriminate.
    + cbn. lia.
    + intros e [].
    + intros _. unfold App.handleSensorData. rewrite M. repeat split.
Qed.

(** ** More on the rate meter *)

Section RateFacts.

Import App.

Lemma not_lt_one_less (v : number) : lt v (sub v (Fin 1)) = false.
Proof.
  destruct v as [q| | |]; try reflexivity.
  cbn [sub lt]. unfold fin. cbn [lt]. apply Qltb_ge.
  rewrite Qred_correct. lra.
Qed.

Lemma evict_keeps_last (limit v : number) (ts : list number) :
  lt v limit = false ->
  exists pre : list number,
    evict limit (ts ++ [v]) = pre ++ [v]
    /\ (length pre <= length ts)%nat.
Proof.
  intros H. induction ts as [|h tl (pre & E & L)].
  - exists []. cbn [List.app evict]. rewrite H. split; [reflexivity | cbn; lia].
  - cbn [List.app evict]. destruct (lt h limit).
    + exists pre. split; [exact E | cbn; lia].
    + exists (h :: tl). split; [reflexivity | cbn; lia].
Qed.

Lemma evict_Forall (P : number -> Prop) (limit : number) (ts : list number) :
  Forall P ts -> Forall P (evict limit ts).
Proof.
  intros F. destruct (evict_prefix limit ts) as (pre & E & _).
  rewrite E in F. apply Forall_app in F. apply F.
Qed.

Lemma last_finite (ts : list number) :
  Forall (fun v => isFinite v = true) ts -> isFinite (last ts (Fin 0)) = true.
Proof.
  induction 1 as [|h tl H F IH]; [reflexivity|].
  destruct tl; [exact H | exact IH].
Qed.

Lemma rateWindow_finite (ts : list number) (time : number) :
  Forall (fun v => isFinite v = true) ts ->
  Forall (fun v => isFinite v = true) (rateWindow ts time).
Proof.
  intros F. unfold rateWindow. apply evict_Forall, Forall_app.
  split; [exact F|]. constructor; [|constructor].
  destruct (isFinite time) eqn:E; [exact E | now apply last_finite].
Qed.


End RateFacts.

(** X8.  The reported rate is never 0: after any sample the window is not
    empty and ends with the time just recorded (the sample's time, or the
    previous entry, or 0, when that time is not finite); the rate is at most
    one more than before. *)
Theorem rate_at_least_one
        (app : App.AccelerometerApp) (data : App.SensorData) :
  exists pre : list number,
    App.msgTimestamps (App.next (App.handleSensorData app data))
    = pre ++ [if isFinite (App.t data) then App.t data
              else last (App.msgTimestamps app) (Fin 0)]
    /\ (1 <= length (App.msgTimestamps
                       (App.next (App.handleSensorData app data))))%nat
    /\ (length (App.msgTimestamps
                  (App.next (App.handleSensorData app data)))
        <= length (App.msgTimestamps app) + 1)%nat.
Proof.
  destruct (handleSensorData_rate app data) as (W & _). rewrite W.
  unfold App.rateWindow.
  set (now := if isFinite (App.t data) then App.t data
              else last (App.msgTimestamps app) (Fin 0)).
  destruct (evict_keeps_last (sub now (Fin 1)) now (App.msgTimestamps app)
              (not_lt_one_less now)) as (pre & E & L).
  exists pre. rewrite E, length_app. cbn [length]. repeat split; lia.
Qed.



(** ** The state the application keeps *)

Section AppFacts.

Import App AppInvariant.

Lemma initial_wellFormed : wellFormed initial.
Proof.
  split; [reflexivity|]. split; [now left|]. split; [constructor | reflexivity].
Qed.

Lemma step_wellFormed (app : AccelerometerApp) (i : Wiring.input) :
  wellFormed app -> wellFormed (Wiring.step app i).
Proof.
  intros (M & A & W & S).
  destruct i as [c | c | c | c | | | | d]; cbn [Wiring.step].
  - destruct c; cbn [onModeAccelChange fst]; repeat split; assumption.
  - destruct c; cbn [onModeGyroChange fst]; repeat split;
      try assumption; now left.
  - destruct c; cbn [onModeFusionChange fst]; repeat split; assumption.
  - destruct c; cbn [onModeFusionMagChange fst]; repeat split; assumption.
  - unfold onResetGyroClick. rewrite M. cbn [fst].
    repeat split; try assumption; now left.
  - repeat split; try assumption; [now left | constructor].
  - repeat split; try assumption; [now left | constructor].
  - destruct (handleSensorData_rate app d) as (R & _).
    destruct (handleSensorData_clock app d M) as (_ & P & _).
    split; [|split; [|split]].
    + unfold handleSensorData. now rewrite M.
    + rewrite P. unfold clockTracker. cbn [fst].
      destruct (t d) as [q| | |]; cbn [isFinite]; eauto.
    + rewrite R. now apply rateWindow_finite.
    + unfold handleSensorData, clockTracker. rewrite M. exact S.
Qed.

Lemma steps_wellFormed (ins : list Wiring.input) (app : AccelerometerApp) :
  wellFormed app -> wellFormed (Wiring.steps app ins).
Proof.
  revert app. induction ins as [|i ins IH]; intros app H; [exact H|].
  cbn [Wiring.steps fold_left]. apply IH, step_wellFormed, H.
Qed.

(** With a finite or missing anchor the [dt] computed from the difference
    before rounding is a finite number that is not negative. *)
Lemma clockTracker_dt (prev : option number) (time : number) :
  prev = None \/ (exists a : Q, prev = Some (Fin a)) ->
  exists d : Q, snd (clockTracker prev time) = Fin d /\ 0 <= d.
Proof.
  intros [-> | [a ->]]; unfold clockTracker; cbn [snd].
  - exists 0. split; [reflexivity | lra].
  - destruct time as [q| | |]; cbn [isFinite];
      try (exists 0; split; [reflexivity | lra]).
    rewrite max0_sub. exists (Qred (Qmax 0 (q - a))).
    split; [reflexivity|]. rewrite Qred_correct. apply Q.le_max_l.
Qed.

End AppFacts.

(** X10.  A transport connect, a transport disconnect and a click on the
    reset button each restart the clock: the next sample gets [dt = 0]
    whatever the anchor was and whatever time it carries.  Connect and
    disconnect also empty the rate window, so that sample is reported as rate
    1; the reset button leaves the window alone. *)
Theorem clock_restarts
        (app : App.AccelerometerApp) (data : App.SensorData) :
  App.pcbModel app = true ->
  App.dt (App.handleSensorData (fst (App.onConnected app)) data)
  = Some (Fin 0)
  /\ App.dt (App.handleSensorData (fst (App.onDisconnected app)) data)
     = Some (Fin 0)
  /\ App.dt (App.handleSensorData (fst (App.onResetGyroClick app)) data)
     = Some (Fin 0)
  /\ App.msgTimestamps
       (App.next (App.handleSensorData (fst (App.onConnected app)) data))
     = [if isFinite (App.t data) then App.t data else Fin 0]
  /\ App.msgTimestamps
       (App.next (App.handleSensorData (fst (App.onDisconnected app)) data))
     = [if isFinite (App.t data) then App.t data else Fin 0]
  /\ App.msgTimestamps (fst (App.onResetGyroClick app))
     = App.msgTimestamps app.
Proof.
  intros M.
  assert (D : forall a, App.pcbModel a = true ->
                        App.prevDeviceTimeSec a = None ->
                        App.dt (App.handleSensorData a data) = Some (Fin 0)).
  { intros a Ma Pa. destruct (handleSensorData_clock a data Ma) as (E & _).
    rewrite E, Pa. reflexivity. }
  assert (W : forall a, App.msgTimestamps a = [] ->
                App.msgTimestamps (App.next (App.handleSensorData a data))
                = [if isFinite (App.t data) then App.t data else Fin 0]).
  { intros a Wa. destruct (handleSensorData_rate a data) as (E & _).
    rewrite E, Wa. unfold App.rateWindow. cbn [last List.app App.evict].
    now rewrite not_lt_one_less. }
  split; [|split; [|split; [|split; [|split]]]].
  - apply D; [exact M | reflexivity].
  - apply D; [exact M | reflexivity].
  - apply D; unfold App.onResetGyroClick; rewrite M; reflexivity.
  - apply W. reflexivity.
  - apply W. reflexivity.
  - unfold App.onResetGyroClick. now rewrite M.
Qed.

Lemma clock_restarts_witness :
  App.dt (App.handleSensorData
            (fst (App.onDisconnected (Fixtures.anchored (Fin 10))))
            (Fixtures.sampleAt (Fin (1 # 4))))
  = Some (Fin 0).
Proof.
  exact (proj1 (proj2 (clock_restarts (Fixtures.anchored (Fin 10))
                                      (Fixtures.sampleAt (Fin (1 # 4)))
                                      eq_refl))).
Defined.

(** X11.  Starting with the model loaded, the accel radio selected and
    smoothing enabled, whatever sequence of mode changes, reset clicks,
    transport events and samples the application goes through, the anchor is
    [null] or a finite number, the rate window holds finite times only, and
    the smoothing control is disabled exactly when the mode is not accel. *)
Theorem application_state_invariant (ins : list Wiring.input) :
  (App.prevDeviceTimeSec (Wiring.steps App.initial ins) = None
   \/ exists a : Q,
       App.prevDeviceTimeSec (Wiring.steps App.initial ins) = Some (Fin a))
  /\ Forall (fun v => isFinite v = true)
            (App.msgTimestamps (Wiring.steps App.initial ins))
  /\ App.smoothingDisabled (Wiring.steps App.initial ins)
     = negb (AppInvariant.isAccel (App.mode (Wiring.steps App.initial ins))).
Proof.
  destruct (steps_wellFormed ins App.initial initial_wellFormed)
    as (_ & A & W & S).
  split; [exact A|]. split; [exact W | exact S].
Qed.

(** X12.  The [dt] handed to the model is never negative and never NaN: in
    every state the application can reach from the initial one, and for
    every sample, finite time or not, [dt] is a number that is not below 0.
    It need not be finite: computed with the rounded difference,
    [max(0, t - prev)] of two binary64 numbers is a finite number at least 0
    or +Infinity.  It is finite when both times are below [2 ^ 128] in
    magnitude, as every float32 time is, and it is +Infinity when the
    difference overflows, as for [prev = - MAX_VALUE] and [t = MAX_VALUE]. *)
Theorem dt_never_negative_nor_nan :
  (forall (ins : list Wiring.input) (data : App.SensorData),
      exists v : number,
        App.dt (App.handleSensorData (Wiring.steps App.initial ins) data)
        = Some v
        /\ v <> NaN /\ lt v (Fin 0) = false)
  /\ (forall q a : Q,
         (exists d : Q,
             Math_max (Fin 0) (minus (Fin q) (Fin a)) = Fin d /\ 0 <= d)
         \/ Math_max (Fin 0) (minus (Fin q) (Fin a)) = PosInf)
  /\ (forall q a : Q,
         Qabs q <= 2 ^ 128 -> Qabs a <= 2 ^ 128 ->
         exists d : Q,
           Math_max (Fin 0) (minus (Fin q) (Fin a)) = Fin d /\ 0 <= d)
  /\ Math_max (Fin 0) (minus (Fin MAX_VALUE) (Fin (- MAX_VALUE))) = PosInf.
Proof.
  assert (M : forall v : Q, exists d : Q,
               Math_max (Fin 0) (Fin v) = Fin d /\ 0 <= d).
  { intros v. cbn [Math_max lt]. destruct (Qltb 0 v) eqn:C.
    - apply Qltb_lt in C. exists v. split; [reflexivity | lra].
    - exists 0. split; [reflexivity | lra]. }
  split; [|split; [|split; [|vm_compute; reflexivity]]].
  - intros ins data.
    destruct (steps_wellFormed ins App.initial initial_wellFormed)
      as (W & A & _ & _).
    destruct (handleSensorData_clock _ data W) as (D & _ & _).
    destruct (clockTracker_dt _ (App.t data) A) as (d & E & P).
    exists (Fin d). rewrite D, E. split; [reflexivity|].
    split; [discriminate|]. cbn [lt]. now apply Qltb_ge.
  - intros q a. cbn [minus].
    destruct (round_cases (q - a)) as [[-> _] | [[-> _] | [-> _]]].
    + left. apply M.
    + right. reflexivity.
    + left. exists 0. split; [reflexivity | lra].
  - intros q a Bq Ba. cbn [minus].
    apply Qabs_Qle_condition in Bq. apply Qabs_Qle_condition in Ba.
    assert (L : round (- 2 ^ 129) = Fin (- inject_Z (2 ^ 129)))
      by (vm_compute; reflexivity).
    assert (U : round (2 ^ 129) = Fin (inject_Z (2 ^ 129)))
      by (vm_compute; reflexivity).
    assert (E : 2 ^ 129 == 2 * 2 ^ 128) by reflexivity.
    remember (2 ^ 128) as b. remember (2 ^ 129) as c.
    destruct (round_between (q - a) (- c) c _ _ ltac:(lra) ltac:(lra) L U)
      as (r & -> & _).
    apply M.
Qed.

Lemma dt_never_negative_nor_nan_witness :
  exists d : Q,
    Math_max (Fin 0) (minus (Fin (3 # 2)) (Fin 1)) = Fin d /\ 0 <= d.
Proof.
  apply (proj1 (proj2 (proj2 dt_never_negative_nor_nan)) (3 # 2) 1);
    unfold Qle; vm_compute; discriminate.
Defined.

(** ** More on the normalizer *)

(** X13.  [normalize180] answers NaN on every input that is not finite and
    a number from -180 to 180, ends included, on every binary64 number; so
    every point that [handleSensorData] adds to the gyro-integrated, fusion
    and fusion-mag graphs has each coordinate either NaN or between -180 and
    180. *)
Theorem plotted_angles_in_range :
  (forall v : number, isFinite v = false -> App.normalize180 v = NaN)
  /\ (forall q : Q,
         Qabs q <= MAX_VALUE ->
         exists r : Q,
           App.normalize180 (Fin q) = Fin r /\ -180 <= r /\ r <= 180)
  /\ (forall (app : App.AccelerometerApp) (data : App.SensorData)
             (g : App.graph) (p : Vec3),
         In (App.AddPoint g p) (App.effects (App.handleSensorData app data)) ->
         AppInvariant.angleGraph g = true ->
         AppInvariant.anglesInRange (App.gyroInt data) ->
         AppInvariant.anglesInRange (App.fusion data) ->
         AppInvariant.anglesInRange (App.fusionMag data) ->
         AppInvariant.plottable (SensorTypes.x p)
         /\ AppInvariant.plottable (SensorTypes.y p)
         /\ AppInvariant.plottable (SensorTypes.z p)).
Proof.
  split; [exact normalize180_nonfinite|]. split; [exact normalize180_closed|].
  assert (P : forall v, AppInvariant.inRange v ->
                        AppInvariant.plottable (App.normalize180 v)).
  { intros [q| | |] R; try (left; reflexivity).
    right. destruct (normalize180_closed q R) as (r & E & L & U).
    exists r. now repeat split. }
  intros app data g p H G R1 R2 R3.
  unfold App.handleSensorData, App.clockTracker, App.dispatch,
    App.plotEuler in H.
  destruct (App.pcbModel app), (App.mode app), (App.gyroInt data),
    (App.fusion data), (App.fusionMag data);
    cbn [App.effects List.app In] in H;
    repeat match goal with
           | K : _ \/ _ |- _ => destruct K as [K | K]
           end;
    try discriminate; try contradiction;
    injection H as <- <-; try discriminate G;
    unfold App.normalizeEuler, AppInvariant.anglesInRange in *;
    cbn [SensorTypes.x SensorTypes.y SensorTypes.z];
    repeat split; apply P; intuition.
Qed.

Lemma plotted_angles_in_range_witness :
  AppInvariant.plottable (Fin (-170)).
Proof.
  refine (proj1
            (proj2 (proj2 plotted_angles_in_range)
                   App.initial
                   {| App.accel := Fixtures.zero3; App.gyro := Fixtures.zero3;
                      App.mag := Fixtures.zero3; App.gyroInt := None;
                      App.fusion :=
                        Some {| roll := Fin 190; pitch := Fin 0;
                                yaw := Fin 0 |};
                      App.fusionMag := None;
                      App.temperature := Fin 25; App.t := Fin 1 |}
                   App.fusionGraph
                   {| x := Fin (-170); y := Fin 0; z := Fin 0 |}
                   _ eq_refl I _ I)).
  - vm_compute. do 6 right. left. reflexivity.
  - vm_compute. repeat split; discriminate.
Defined.

(** X14.  On angles that the sums do not round (multiples of [2 ^ - k] with
    [(|d| + 540) 2 ^ k <= 2 ^ 53], such as integers and multiples of
    [2 ^ -43] of ordinary size) [normalize180] leaves the angles of
    [-180, 180) unchanged, and two such angles that differ by a whole number
    of turns have the same normal form.  Other binary64 numbers are changed
    by rounding: 0.1 comes out as 0.09999999999999432 and [2 ^ -60] as 0. *)
Theorem normalize180_fixes_range_and_turns :
  (forall (k : Z) (q : Q),
      Angles.exact 540 k q -> -180 <= q -> q < 180 ->
      App.normalize180 (Fin q) = fin q)
  /\ (forall (k : Z) (q : Q) (j : Z),
         Angles.exact 540 k q ->
         Angles.exact 540 k (q + 360 * inject_Z j) ->
         App.normalize180 (Fin (q + 360 * inject_Z j))
         = App.normalize180 (Fin q))
  /\ App.normalize180 (Fin Angles.tenth)
     = Fin (3518437208883 # 35184372088832)
  /\ App.normalize180 (Fin (2 ^ (-60))) = Fin 0.
Proof.
  split; [|split; [|split; [|vm_compute; reflexivity]]].
  - intros k q X L U.
    destruct (normalize180_residue k q X) as (r & j & E & C & L' & U' & _).
    rewrite E. apply fin_eq. now apply (residue_unique r q j).
  - intros k q j X X'.
    destruct (normalize180_residue k _ X') as (r' & j' & E' & C' & L' & U' & _).
    destruct (normalize180_residue k q X) as (r & i & E & C & L & U & _).
    rewrite E, E'. apply fin_eq.
    apply (residue_unique _ _ (j' + j - i)); try assumption.
    unfold Z.sub. rewrite !inject_Z_plus, inject_Z_opp. rewrite C', C. lra.
  - apply normalize180_values.
Qed.

Lemma normalize180_fixes_range_and_turns_witness :
  App.normalize180 (Fin (-(359 # 2))) = fin (-(359 # 2)).
Proof.
  apply (proj1 normalize180_fixes_range_and_turns 1%Z (-(359 # 2))).
  - split; [lia|]. split.
    + exists (-359)%Z. reflexivity.
    + unfold Qle. vm_compute. discriminate.
  - unfold Qle. cbn. lia.
  - unfold Qlt. cbn. lia.
Defined.

(** ** From the manager to the application *)

Section Pipeline.

Import AppInvariant.

Lemma deliver_app (es1 es2 : list WebBLE.event) (app : App.AccelerometerApp) :
  Wiring.deliver app (es1 ++ es2)
  = (fst (Wiring.deliver (fst (Wiring.deliver app es1)) es2),
     snd (Wiring.deliver app es1)
     ++ snd (Wiring.deliver (fst (Wiring.deliver app es1)) es2)).
Proof.
  revert app. induction es1 as [|e es1 IH]; intros app.
  - cbn [List.app Wiring.deliver fst snd].
    now destruct (Wiring.deliver app es2).
  - cbn [List.app Wiring.deliver].
    destruct (Wiring.react app e) as [app1 x].
    rewrite IH.
    destruct (Wiring.deliver app1 es1) as [app2 xs].
    reflexivity.
Qed.

Lemma last_of_three {A : Type} (xs : list A) (a b c d : A) :
  last (xs ++ [a; b; c]) d = c.
Proof.
  change [a; b; c] with ([a; b] ++ [c]).
  rewrite app_assoc. apply last_last.
Qed.

Lemma toSensorData_complete (p : WebBLE.Packet) :
  Conditions.complete p = true ->
  exists d, Wiring.toSensorData p = Some d /\ App.t d = WebBLE.t p.
Proof.
  unfold Conditions.complete, Wiring.toSensorData.
  destruct (WebBLE.accel p), (WebBLE.gyro p), (WebBLE.mag p),
    (WebBLE.temperature p); try discriminate.
  intros _. eexists. split; reflexivity.
Qed.

(** A reaction that is not a TypeError and whose [dt], if a sample was
    handled, is a finite number at least 0. *)
Lemma react_sound (app : App.AccelerometerApp) (e : WebBLE.event) :
  wellFormed app ->
  match e with WebBLE.Data p => Conditions.complete p = true | _ => True end ->
  wellFormed (fst (Wiring.react app e))
  /\ match snd (Wiring.react app e) with
     | Wiring.Raised _ => False
     | Wiring.Handled o =>
         exists d : Q, App.dt o = Some (Fin d) /\ 0 <= d
     | Wiring.Told _ => True
     end.
Proof.
  intros W C. destruct e as [| | p |]; cbn [Wiring.react fst snd].
  - split; [|exact I].
    exact (step_wellFormed app Wiring.TransportConnected W).
  - split; [|exact I].
    exact (step_wellFormed app Wiring.TransportDisconnected W).
  - destruct (toSensorData_complete p C) as (d & -> & _).
    cbn [fst snd]. split.
    + exact (step_wellFormed app (Wiring.SensorSample d) W).
    + destruct W as (M & A & _ & _).
      destruct (handleSensorData_clock app d M) as (D & _ & _).
      destruct (clockTracker_dt _ (App.t d) A) as (q & E & P).
      exists q. rewrite D, E. now split.
  - split; [exact W | exact I].
Qed.

Lemma deliver_sound (es : list WebBLE.event) (app : App.AccelerometerApp) :
  wellFormed app ->
  Forall Conditions.sampleOk (WebBLE.samples es) ->
  wellFormed (fst (Wiring.deliver app es))
  /\ Forall (fun x => match x with
                      | Wiring.Raised _ => False
                      | Wiring.Handled o =>
                          exists d : Q, App.dt o = Some (Fin d) /\ 0 <= d
                      | Wiring.Told _ => True
                      end)
            (snd (Wiring.deliver app es)).
Proof.
  revert app. induction es as [|e es IH]; intros app W F.
  - split; [exact W | constructor].
  - cbn [Wiring.deliver].
    assert (C : match e with
                | WebBLE.Data p => Conditions.complete p = true
                | _ => True
                end).
    { destruct e; try exact I. cbn [WebBLE.samples] in F.
      apply Forall_inv in F. apply F. }
    assert (F' : Forall Conditions.sampleOk (WebBLE.samples es)).
    { destruct e; cbn [WebBLE.samples] in F; try exact F.
      now apply Forall_inv_tail in F. }
    destruct (react_sound app e W C) as (W1 & X).
    destruct (Wiring.react app e) as [app1 x]. cbn [fst snd] in W1, X.
    destruct (IH app1 W1 F') as (W2 & Xs).
    destruct (Wiring.deliver app1 es) as [app2 xs]. cbn [fst snd] in *.
    split; [exact W2 | now constructor].
Qed.

End Pipeline.


(** X16.  End to end, the first sample after a link drop and a reconnect
    gets [dt = 0] whatever device time it carries: after any run, a
    disconnect, a connect and one accepted buffer, the last thing the
    application does is handle the sample of that buffer with [dt = 0], a
    window of that one sample, and its time as the new anchor. *)
Theorem first_sample_after_reconnect
        (ts : list WebBLE.turn) (control : bool) (dv : DataView) :
  Conditions.accepted dv = true ->
  exists o : App.Outcome,
    last (snd (Wiring.deliver App.initial
                 (WebBLE.emitted
                    (WebBLE.run
                       (ts ++ [WebBLE.GattDisconnected;
                               WebBLE.ConnectOk control;
                               WebBLE.Updates [dv]])
                       WebBLE.fresh))))
         (Wiring.Told [])
    = Wiring.Handled o
    /\ App.dt o = Some (Fin 0)
    /\ App.msgTimestamps (App.next o) = [WebBLE.t (Layout.sample dv)]
    /\ App.prevDeviceTimeSec (App.next o)
       = Some (WebBLE.t (Layout.sample dv)).
Proof.
  intros A.
  unfold WebBLE.run. rewrite fold_left_app. cbn [fold_left].
  pose proof (run_settled ts WebBLE.fresh fresh_settled) as S0.
  unfold WebBLE.run in S0.
  set (r0 := fold_left WebBLE.runTurn ts WebBLE.fresh) in *.
  pose proof (turn_settled r0 WebBLE.GattDisconnected S0) as S1.
  assert (E1 : WebBLE.emitted (WebBLE.runTurn r0 WebBLE.GattDisconnected)
               = WebBLE.emitted r0 ++ [WebBLE.Disconnected]
               /\ WebBLE.server
                    (WebBLE.this (WebBLE.runTurn r0 WebBLE.GattDisconnected))
                  = false).
  { assert (Q' : Conditions.quiescent (WebBLE.handleDisconnect r0)).
    { destruct S0 as ((Qm & _) & _). split; [exact Qm | reflexivity]. }
    unfold WebBLE.runTurn. rewrite (drain_quiescent _ Q').
    split; reflexivity. }
  set (r1 := WebBLE.runTurn r0 WebBLE.GattDisconnected) in *.
  destruct E1 as (E1 & V1).
  pose proof (turn_settled r1 (WebBLE.ConnectOk control) S1) as S2.
  assert (E2 : WebBLE.emitted (WebBLE.runTurn r1 (WebBLE.ConnectOk control))
               = WebBLE.emitted r1 ++ [WebBLE.Connected]).
  { assert (Q' : Conditions.quiescent (WebBLE.connectOk control r1)).
    { unfold WebBLE.connectOk. rewrite V1.
      destruct S1 as ((Qm & Qf) & _). split; [exact Qm | exact Qf]. }
    unfold WebBLE.runTurn. rewrite (drain_quiescent _ Q').
    unfold WebBLE.connectOk. rewrite V1. reflexivity. }
  set (r2 := WebBLE.runTurn r1 (WebBLE.ConnectOk control)) in *.
  pose proof (turn_emits_layout r2 [] [] dv (proj1 S2) A eq_refl) as E3.
  cbn [List.app] in E3. rewrite E3, E2, E1.
  rewrite <- !app_assoc. cbn [List.app].
  rewrite deliver_app. cbn [snd].
  destruct S0 as (_ & _ & F0).
  destruct (deliver_sound _ App.initial initial_wellFormed F0) as (W0 & _).
  set (a0 := fst (Wiring.deliver App.initial (WebBLE.emitted r0))) in *.
  destruct W0 as (M0 & _).
  assert (C : Conditions.complete (Layout.sample dv) = true) by reflexivity.
  destruct (toSensorData_complete _ C) as (d & Ed & Td).
  cbn [Wiring.deliver Wiring.react fst snd App.onDisconnected
       App.onConnected]. rewrite Ed. cbn [fst snd].
  set (a2 := App.clearWindowAndAnchor (App.clearWindowAndAnchor a0)).
  exists (App.handleSensorData a2 d).
  rewrite last_of_three. split; [reflexivity|].
  assert (M2 : App.pcbModel a2 = true) by exact M0.
  destruct (handleSensorData_clock a2 d M2) as (D & P & _).
  destruct (handleSensorData_rate a2 d) as (R & _).
  assert (Fi : isFinite (App.t d) = true).
  { rewrite Td. unfold Layout.sample. cbn [WebBLE.t].
    destruct (isFinite (Layout.field dv 19)) eqn:Fi; [exact Fi | reflexivity]. }
  rewrite D, P, R. unfold App.clockTracker, App.rateWindow.
  cbn [App.prevDeviceTimeSec App.msgTimestamps a2 App.clearWindowAndAnchor
       fst snd]. rewrite Fi, Td.
  cbn [List.app App.evict]. rewrite not_lt_one_less.
  repeat split.
Qed.

Lemma first_sample_after_reconnect_witness :
  exists o : App.Outcome,
    last (snd (Wiring.deliver App.initial
                 (WebBLE.emitted
                    (WebBLE.run
                       ([WebBLE.ConnectOk true;
                         WebBLE.Updates [Fixtures.buffer Fixtures.f32_1_5 0]]
                          ++ [WebBLE.GattDisconnected;
                              WebBLE.ConnectOk false;
                              WebBLE.Updates
                                [Fixtures.buffer Fixtures.f32_nan 0]])
                       WebBLE.fresh))))
         (Wiring.Told [])
    = Wiring.Handled o
    /\ App.dt o = Some (Fin 0)
    /\ App.msgTimestamps (App.next o)
       = [WebBLE.t (Layout.sample (Fixtures.buffer Fixtures.f32_nan 0))]
    /\ App.prevDeviceTimeSec (App.next o)
       = Some (WebBLE.t (Layout.sample (Fixtures.buffer Fixtures.f32_nan 0))).
Proof.
  exact (first_sample_after_reconnect
           [WebBLE.ConnectOk true;
            WebBLE.Updates [Fixtures.buffer Fixtures.f32_1_5 0]]
           false (Fixtures.buffer Fixtures.f32_nan 0) eq_refl).
Defined.

(** X17.  The clock and the rate meter do not look at the orientation mode
    or at the smoothing flag: two application states with the same model,
    anchor and window give the same [dt], the same new anchor, the same new
    window and the same reported rate on any sample.  So a switch to accel,
    fusion or fusion-mag mode, which touches none of the three, leaves the
    next [dt] as it would have been. *)
Theorem clock_and_rate_ignore_mode
        (app1 app2 : App.AccelerometerApp) (data : App.SensorData) :
  App.pcbModel app1 = App.pcbModel app2 ->
  App.prevDeviceTimeSec app1 = App.prevDeviceTimeSec app2 ->
  App.msgTimestamps app1 = App.msgTimestamps app2 ->
  App.dt (App.handleSensorData app1 data)
  = App.dt (App.handleSensorData app2 data)
  /\ App.prevDeviceTimeSec (App.next (App.handleSensorData app1 data))
     = App.prevDeviceTimeSec (App.next (App.handleSensorData app2 data))
  /\ App.msgTimestamps (App.next (App.handleSensorData app1 data))
     = App.msgTimestamps (App.next (App.handleSensorData app2 data))
  /\ hd_error (App.effects (App.handleSensorData app1 data))
     = hd_error (App.effects (App.handleSensorData app2 data)).
Proof.
  intros M P W.
  destruct (handleSensorData_rate app1 data) as (R1 & H1).
  destruct (handleSensorData_rate app2 data) as (R2 & H2).
  rewrite R1, R2, H1, H2, W.
  unfold App.handleSensorData, App.clockTracker. rewrite M, P.
  destruct (App.pcbModel app2); repeat split.
Qed.

Lemma clock_and_rate_ignore_mode_witness :
  App.dt (App.handleSensorData
            (fst (App.onModeFusionMagChange true (Fixtures.anchored (Fin 10))))
            (Fixtures.sampleAt (Fin 11)))
  = App.dt (App.handleSensorData (Fixtures.anchored (Fin 10))
                                 (Fixtures.sampleAt (Fin 11))).
Proof.
  exact (proj1 (clock_and_rate_ignore_mode
                  (fst (App.onModeFusionMagChange true
                          (Fixtures.anchored (Fin 10))))
                  (Fixtures.anchored (Fin 10))
                  (Fixtures.sampleAt (Fin 11))
                  eq_refl eq_refl eq_refl)).
Defined.

Lemma sendCommand_isolated_witness :
  fst (Commands.sendCommand [x52; x45; x53; x45; x54]
         {| Commands.writeValueWithoutResponse := Some true;
            Commands.writeValue := Some true |}
         WebBLE.fresh) = [].
Proof.
  exact (proj2 (proj2 (proj2 (proj2 (proj2 (proj2
    (sendCommand_isolated [x52; x45; x53; x45; x54]
       {| Commands.writeValueWithoutResponse := Some true;
          Commands.writeValue := Some true |}
       WebBLE.fresh)))))) eq_refl).
Defined.

Lemma model_calls_per_sample_witness :
  exists d,
    Wiring.modelCalls
      (App.effects
         (App.handleSensorData
            (fst (App.onModeGyroChange true (Fixtures.anchored (Fin 10))))
            (Fixtures.sampleAt (Fin 11))))
    = [App.UpdateOrientationFromEuler None d].
Proof.
  exact (proj1 (proj2 (proj2 (proj2 (proj2
    (model_calls_per_sample
       (fst (App.onModeGyroChange true (Fixtures.anchored (Fin 10))))
       (Fixtures.sampleAt (Fin 11))))))) eq_refl eq_refl).
Defined.
